(** * HealingHerb AI conversation gateway

    A shallow embedding of the AI chat slice of the HealingHerb backend:
    - [healingherb/utils/ai_utils.py]: [AIRateLimiter], [sanitize_message],
      [check_emergency_keywords], [create_system_prompt], [call_gemini_api],
      [get_fallback_response];
    - [healingherb/routes/ai.py]: the handlers [chat], [clear_history] and
      [submit_feedback];
    - [healingherb/schemas/__init__.py]: the schemas of their bodies.

    Python values are modelled as follows.
    - [str] is a sequence of Unicode code points: [pystr := list N].  Literals
      are written as in the source and decoded from UTF-8 by [u8].
    - a naive [datetime] is the number of microseconds since the epoch (its
      resolution), an integer of [Z], read in the zone [timestamp()] reads
      it in.  The limiter compares and adds timestamps on these exact
      values; the wait it reports and the reset header are computed as the
      code computes them, in binary64 floats ([PrimFloat]).
    - the dict [AIRateLimiter.requests] is a [gmap]; the inner dicts are
      records, mutated in place in the source, replaced in the map here
      (the last part models them by reference, for interleaved calls).
    - the two SQL tables the handlers touch are lists of records; a row is
      read as the dict the PostgreSQL cursor returns, the form the handlers'
      [profile.get(...)] and [%s] placeholders are written for.  The one
      error of the database that is modelled is the driver's refusal of a
      text parameter that holds U+0000; the caller's id is read from the
      [users] table by [auth_middleware] and a fresh uuid is hex digits and
      hyphens, so neither holds one.
    - a request body is the decoded JSON document [request.json]; the
      schemas read it as marshmallow 3 does.
    - what a handler reads from outside (the clock, the HTTP answer, the
      fresh uuid) is an argument. *)

From Stdlib Require Import String Ascii NArith ZArith QArith List Lia.
From Stdlib Require PrimFloat FloatOps SpecFloat Uint63.
From stdpp Require Import gmap list sorting.
Import ListNotations.

(** ** Python strings *)

Module Py.

Definition pystr := list N.

Definition bytes_of (s : String.string) : list N :=
  List.map N_of_ascii (list_ascii_of_string s).

(** UTF-8 decoding of a source literal into code points. *)
Fixpoint utf8_decode (bs : list N) : pystr :=
  match bs with
  | [] => []
  | b0 :: r0 =>
    if (b0 <? 128)%N then b0 :: utf8_decode r0
    else if (b0 <? 224)%N then
      match r0 with
      | b1 :: r1 => ((b0 mod 32) * 64 + b1 mod 64)%N :: utf8_decode r1
      | _ => []
      end
    else if (b0 <? 240)%N then
      match r0 with
      | b1 :: b2 :: r2 =>
        ((b0 mod 16) * 4096 + (b1 mod 64) * 64 + b2 mod 64)%N :: utf8_decode r2
      | _ => []
      end
    else
      match r0 with
      | b1 :: b2 :: b3 :: r3 =>
        ((b0 mod 8) * 262144 + (b1 mod 64) * 4096 + (b2 mod 64) * 64 + b3 mod 64)%N
          :: utf8_decode r3
      | _ => []
      end
  end.

Definition u8 (s : String.string) : pystr := utf8_decode (bytes_of s).

(** [str.isspace] for one code point: the characters [str.split()] and
    [str.strip()] treat as whitespace. *)
Definition is_space (c : N) : bool :=
  ((9 <=? c) && (c <=? 13) || (28 <=? c) && (c <=? 32)
   || (c =? 133) || (c =? 160) || (c =? 5760)
   || (8192 <=? c) && (c <=? 8202)
   || (c =? 8232) || (c =? 8233) || (c =? 8239) || (c =? 8287) || (c =? 12288))%N.

(** [len(s.split())]: the number of maximal runs of non-whitespace.
    [in_word] tells whether the previous character belonged to a word. *)
Fixpoint count_words (in_word : bool) (s : pystr) : Z :=
  match s with
  | [] => 0
  | c :: r =>
    if is_space c then count_words false r
    else if in_word then count_words true r
    else (1 + count_words true r)%Z
  end.

Definition split_len (s : pystr) : Z := count_words false s.

(** [s.strip()] *)
Fixpoint lstrip (s : pystr) : pystr :=
  match s with
  | c :: r => if is_space c then lstrip r else s
  | [] => []
  end.

Definition rstrip (s : pystr) : pystr := rev (lstrip (rev s)).

Definition strip (s : pystr) : pystr := rstrip (lstrip s).

(** [s[:n]] *)
Definition slice_to (n : nat) (s : pystr) : pystr := firstn n s.

(** [s.startswith(p)] at the head, and [p in s]. *)
Fixpoint starts_with (p s : pystr) : bool :=
  match p, s with
  | [], _ => true
  | _ :: _, [] => false
  | a :: p', b :: s' => (a =? b)%N && starts_with p' s'
  end.

Fixpoint contains (p s : pystr) : bool :=
  starts_with p s ||
  match s with
  | [] => false
  | _ :: s' => contains p s'
  end.

(** [str(n)] for an integer. *)
Fixpoint digits (fuel : nat) (n : N) (acc : pystr) : pystr :=
  match fuel with
  | O => acc
  | S fuel' =>
    let acc' := (48 + n mod 10)%N :: acc in
    if (n <? 10)%N then acc' else digits fuel' (n / 10)%N acc'
  end.

Definition str_of_int (z : Z) : pystr :=
  let n := Z.abs_N z in
  let ds := digits (S (N.to_nat (N.log2 n))) n [] in
  if (z <? 0)%Z then 45%N :: ds else ds.

(** [str.lower] on a string whose cased characters are ASCII letters;
    Arabic has no case. *)
Definition ascii_lower (s : pystr) : pystr :=
  List.map (fun c => if ((65 <=? c) && (c <=? 90))%N then (c + 32)%N else c) s.

(** [int(s)] and [float(s)] on plain decimal strings: ASCII digits with an
    optional sign and, for [float], an optional fraction.  Python also
    strips whitespace and reads underscores, exponents and the digits of
    other scripts; the handlers take the two functions as arguments. *)
Fixpoint decimal (acc : N) (s : pystr) : option N :=
  match s with
  | [] => Some acc
  | c :: r =>
    if ((48 <=? c) && (c <=? 57))%N then decimal (acc * 10 + (c - 48))%N r
    else None
  end.

Definition unsigned (s : pystr) : option N :=
  match s with
  | [] => None
  | _ :: _ => decimal 0 s
  end.

Definition ascii_int (s : pystr) : option Z :=
  match s with
  | 45%N :: r => n ← unsigned r; Some (- Z.of_N n)%Z
  | 43%N :: r => n ← unsigned r; Some (Z.of_N n)
  | _ => n ← unsigned s; Some (Z.of_N n)
  end.

Fixpoint split_at_dot (s : pystr) : pystr * option pystr :=
  match s with
  | [] => ([], None)
  | c :: r =>
    if (c =? 46)%N then ([], Some r)
    else let '(whole, fraction) := split_at_dot r in (c :: whole, fraction)
  end.

Definition ascii_float (s : pystr) : option Q :=
  let '(negative, digits) :=
    match s with
    | 45%N :: r => (true, r)
    | 43%N :: r => (false, r)
    | _ => (false, s)
    end in
  let '(whole, fraction) := split_at_dot digits in
  n ← unsigned whole;
  q ← match fraction with
      | None => Some (inject_Z (Z.of_N n))
      | Some f =>
        m ← unsigned f;
        Some (Qmake (Z.of_N n * 10 ^ Z.of_nat (length f) + Z.of_N m)
                    (Z.to_pos (10 ^ Z.of_nat (length f))))
      end;
  Some (if negative : bool then Qopp q else q).

#[global] Arguments u8 : simpl never.
#[global] Arguments str_of_int : simpl never.
#[global] Arguments split_len : simpl never.
#[global] Arguments strip : simpl never.

End Py.

Import Py.

(** ** The rate limiter ([AIRateLimiter]) *)

Module Limiter.

Local Open Scope Z_scope.

(** One value of [self.requests]: the dict with keys ['count'],
    ['window_start'] (a datetime) and ['reset_time'] (a timestamp). *)
Record window := Window {
  count : Z;
  window_start : Z;
  reset_time : Z
}.

Record AIRateLimiter := Build {
  requests : gmap pystr window;
  limit : Z;
  window_minutes : Z
}.

(** The dict [check] returns. [resetAfter] is in milliseconds. *)
Record rate_result := Result {
  allowed : bool;
  remaining : Z;
  resetAfter : Z
}.

(** [__init__] *)
Definition init : AIRateLimiter :=
  {| requests := ∅; limit := 60; window_minutes := 15 |}.

Definition with_requests (self : AIRateLimiter) (m : gmap pystr window) : AIRateLimiter :=
  {| requests := m; limit := limit self; window_minutes := window_minutes self |}.

(** [f"ai:{user_id}"] *)
Definition key_of (user_id : pystr) : pystr := u8 "ai:" ++ user_id.

(** [self.window_minutes * 60] seconds, in microseconds. *)
Definition window_span (self : AIRateLimiter) : Z := window_minutes self * 60 * 1000000.

(** [float(n)] for an integer below [2^63] in magnitude, which every count
    of seconds or microseconds of a [datetime] is. *)
Definition float_of_int (n : Z) : PrimFloat.float :=
  if n <? 0 then PrimFloat.opp (PrimFloat.of_uint63 (Uint63.of_Z (- n)))
  else PrimFloat.of_uint63 (Uint63.of_Z n).

(** [int(x)] for a finite float: the integer part.  On an infinity or a
    NaN Python raises; the floats of [check] are finite. *)
Definition int_of_float (x : PrimFloat.float) : Z :=
  match FloatOps.Prim2SF x with
  | SpecFloat.S754_finite sign m e =>
    let magnitude := if 0 <=? e then Z.pos m * 2 ^ e else Z.pos m / 2 ^ (- e) in
    if sign then - magnitude else magnitude
  | _ => 0
  end.

(** [datetime.timestamp()]: the whole seconds plus [microsecond / 1e6]. *)
Definition timestamp (t : Z) : PrimFloat.float :=
  PrimFloat.add (float_of_int (t / 1000000))
                (PrimFloat.div (float_of_int (t mod 1000000))
                               (float_of_int 1000000)).

(** The float kept under ['reset_time'],
    [now.timestamp() + (self.window_minutes * 60)].  The record keeps the
    exact sum, [now + window_span self]; this is the float of the [now] it
    was made from. *)
Definition reset_float (minutes reset : Z) : PrimFloat.float :=
  PrimFloat.add (timestamp (reset - minutes * 60 * 1000000))
                (float_of_int (minutes * 60)).

(** [int((user_data['reset_time'] - now.timestamp()) * 1000)] *)
Definition millis_until (minutes reset now : Z) : Z :=
  int_of_float
    (PrimFloat.mul (PrimFloat.sub (reset_float minutes reset) (timestamp now))
                   (float_of_int 1000)).

(** [AIRateLimiter.check]; [now] is the value of [datetime.utcnow()]. *)
Definition check (self : AIRateLimiter) (user_id : pystr) (now : Z)
  : rate_result * AIRateLimiter :=
  let key := key_of user_id in
  match requests self !! key with
  | None =>
    ({| allowed := true;
        remaining := limit self - 1;
        resetAfter := window_minutes self * 60 * 1000 |},
     with_requests self
       (<[key := {| count := 1; window_start := now;
                    reset_time := now + window_span self |}]> (requests self)))
  | Some user_data =>
    let window_end := window_start user_data + window_span self in
    if now >? window_end then
      ({| allowed := true;
          remaining := limit self - 1;
          resetAfter := window_minutes self * 60 * 1000 |},
       with_requests self
         (<[key := {| count := 1; window_start := now;
                      reset_time := now + window_span self |}]> (requests self)))
    else if count user_data >=? limit self then
      ({| allowed := false;
          remaining := 0;
          resetAfter :=
            millis_until (window_minutes self) (reset_time user_data) now |},
       self)
    else
      let user_data' :=
        {| count := count user_data + 1;
           window_start := window_start user_data;
           reset_time := reset_time user_data |} in
      ({| allowed := true;
          remaining := limit self - count user_data';
          resetAfter :=
            millis_until (window_minutes self) (reset_time user_data') now |},
       with_requests self (<[key := user_data']> (requests self)))
  end.

(** [AIRateLimiter.get_headers]: the three header values before [str()];
    the third is [int(user_data['reset_time'])]. *)
Definition get_headers (self : AIRateLimiter) (user_id : pystr)
  : option (Z * Z * Z) :=
  match requests self !! key_of user_id with
  | None => None
  | Some user_data =>
    Some (limit self, limit self - count user_data,
          int_of_float (reset_float (window_minutes self) (reset_time user_data)))
  end.

(** A sequence of calls, one after the other, on the one limiter of the
    process; each call is the caller's id and the clock reading. *)
Fixpoint run (self : AIRateLimiter) (calls : list (pystr * Z))
  : list (pystr * rate_result) * AIRateLimiter :=
  match calls with
  | [] => ([], self)
  | (u, t) :: rest =>
    let '(r, self') := check self u t in
    let '(rs, self'') := run self' rest in
    ((u, r) :: rs, self'')
  end.

(** The results of one user's calls, in call order. *)
Definition results_of (u : pystr) (rs : list (pystr * rate_result)) : list rate_result :=
  List.map snd (List.filter (fun p => bool_decide (p.1 = u)) rs).

(** The states a limiter can be in: what [init] followed by calls gives. *)
Inductive reachable : AIRateLimiter → Prop :=
| reachable_init : reachable init
| reachable_check self u t : reachable self → reachable (check self u t).2.

(** What holds of every window a limiter stores. *)
Definition sound (self : AIRateLimiter) : Prop :=
  limit self = 60 ∧ window_minutes self = 15 ∧
  ∀ k w, requests self !! k = Some w →
    1 ≤ count w ≤ 60 ∧ reset_time w = window_start w + 900000000.


#[global] Arguments millis_until : simpl never.
#[global] Arguments reset_float : simpl never.
#[global] Arguments int_of_float : simpl never.

End Limiter.

(** ** The chat utilities ([ai_utils.py]) *)

Module Gateway.

Import Limiter.
Local Open Scope Z_scope.

(** [sanitize_message] *)
Definition sanitize_message (message : pystr) : pystr :=
  match message with
  | [] => []
  | _ :: _ => slice_to 5000 (strip message)
  end.

Definition emergency_keywords : list pystr :=
  [ u8 "طارئ"; u8 "إسعاف"; u8 "مستعجل"; u8 "خطير"; u8 "مخيف"; u8 "نزيف";
    u8 "ألم شديد"; u8 "صعوبة تنفس"; u8 "فقدان وعي"; u8 "حادث"; u8 "سكتة";
    u8 "نوبة قلبية"; u8 "تسمم"; u8 "حرق"; u8 "غرق"; u8 "اختناق" ].

(** The loop of [check_emergency_keywords] over the keyword list. *)
Fixpoint any_keyword_in (keywords : list pystr) (message_lower : pystr) : bool :=
  match keywords with
  | [] => false
  | keyword :: rest =>
    if contains keyword message_lower then true
    else any_keyword_in rest message_lower
  end.

(** The columns of a [users] row that the prompt reads. *)
Record user_row := UserRow {
  u_id : pystr;
  u_diseases : option pystr;
  u_allergies : option pystr;
  u_medications : option pystr;
  u_age : option Z;
  u_gender : option pystr
}.

(** [profile.get(k)] used as a condition, for a text and an integer column. *)
Definition get_text (o : option pystr) : option pystr :=
  match o with
  | Some (c :: s) => Some (c :: s)
  | _ => None
  end.

Definition get_int (o : option Z) : option Z :=
  match o with
  | Some n => if n =? 0 then None else Some n
  | None => None
  end.

Definition base_prompt : pystr :=
  u8 "أنت مساعد طبي عربي متخصص تسمى " ++ [34%N] ++ u8 "عشبة شفاء" ++ [34%N] ++ u8 ". مهمتك تقديم معلومات طبية عامة ونصائح صحية.

المعلومات التي يجب مراعاتها:
- أنا مريض سكري وأتابع حالتي
- لدي حساسية من بعض الأدوية
- أتناول أدوية منتظمة

قواعد مهمة:
1. لا تقدم تشخيصات طبية نهائية
2. لا تصف أدوية محددة بجرعات
3. شجع دائمًا على استشارة الطبيب
4. في الحالات الطارئة، نبه المريض للاتصال بالطوارئ
5. استخدم اللغة العربية الفصحى مع بعض التعبيرات الدارجة
6. كن داعمًا ومتفهمًا
7. قدم معلومات دقيقة وموثوقة
8. إذا لم تكن متأكدًا، قل " ++ [34%N] ++ u8 "لا أعرف" ++ [34%N] ++ u8 " بدلاً من التخمين

ملاحظة: المعلومات المقدمة هي للاسترشاد فقط وليست بديلاً عن الاستشارة الطبية.".

(** [create_system_prompt] *)
Definition create_system_prompt (profile : option user_row) : pystr :=
  let prompt := base_prompt in
  match profile with
  | None => prompt
  | Some profile =>
    let prompt :=
      match get_text (u_diseases profile) with
      | Some d => prompt ++ u8 "

الأمراض المزمنة للمستخدم: " ++ d
      | None => prompt
      end in
    let prompt :=
      match get_text (u_allergies profile) with
      | Some a => prompt ++ u8 "
الحساسية: " ++ a
      | None => prompt
      end in
    let prompt :=
      match get_text (u_medications profile) with
      | Some m => prompt ++ u8 "
الأدوية التي يتناولها: " ++ m
      | None => prompt
      end in
    let prompt :=
      match get_int (u_age profile) with
      | Some n => prompt ++ u8 "
العمر: " ++ str_of_int n
      | None => prompt
      end in
    match get_text (u_gender profile) with
    | Some g =>
      let gender_ar := if bool_decide (g = u8 "male") then u8 "ذكر" else u8 "أنثى" in
      prompt ++ u8 "
النوع: " ++ gender_ar
    | None => prompt
    end
  end.

(** One entry of the message list: [{'role': ..., 'content': ...}]. *)
Inductive role := System | User | Assistant.

Record message := Message {
  role_of : role;
  content : pystr
}.

(** A decoded JSON document, as [response.json()] returns it. *)
#[local] Set Warnings "-register-all".
Inductive json :=
| JNull
| JBool (b : bool)
| JInt (n : Z)
| JFloat (q : Q)
| JStr (s : pystr)
| JList (items : list json)
| JDict (fields : list (pystr * json)).

(** [d[k]] on the fields of a dict, whose keys are distinct. *)
Fixpoint assoc (k : pystr) (fields : list (pystr * json)) : option json :=
  match fields with
  | [] => None
  | (k', v) :: rest => if bool_decide (k = k') then Some v else assoc k rest
  end.

(** Python truthiness of a JSON value. *)
Definition truthy (j : json) : bool :=
  match j with
  | JNull => false
  | JBool b => b
  | JInt n => negb (n =? 0)
  | JFloat q => negb (Qeq_bool q 0)
  | JStr [] | JList [] | JDict [] => false
  | JStr _ | JList _ | JDict _ => true
  end.

(** [j[k]] for a string key, [j[0]], and the use of a value as a [str];
    [None] where Python raises. *)
Definition getitem (k : pystr) (j : json) : option json :=
  match j with
  | JDict fields => assoc k fields
  | _ => None
  end.

Definition getitem0 (j : json) : option json :=
  match j with
  | JList (x :: _) => Some x
  | JStr (c :: _) => Some (JStr [c])
  | _ => None
  end.

Definition as_str (j : json) : option pystr :=
  match j with
  | JStr s => Some s
  | _ => None
  end.

(** [result['candidates'][0]['content']['parts'][0]['text']] under the guard
    ['candidates' in result and result['candidates']]; the text must be a
    [str] for [ai_response.split()].  [None] stands for every way this
    raises, the explicit [raise] of the [else] branch included. *)
Definition candidate_text (result : json) : option pystr :=
  match result with
  | JDict fields =>
    match assoc (u8 "candidates") fields with
    | Some candidates =>
      if truthy candidates then
        c0 ← getitem0 candidates;
        c1 ← getitem (u8 "content") c0;
        ps ← getitem (u8 "parts") c1;
        p0 ← getitem0 ps;
        t ← getitem (u8 "text") p0;
        as_str t
      else None
    | None => None
    end
  | _ => None
  end.

(** What [requests.post] can do: time out, fail otherwise, or answer with a
    status and a body ([None] when the body is not JSON). *)
Inductive http_outcome :=
| HttpTimeout
| HttpFailure
| HttpResponse (status_code : Z) (body : option json).

Inductive gemini_role := GUser | GModel.

(** One element of [contents]; the element made from the system message
    has no ['role'] key. *)
Record gemini_content := GeminiContent {
  g_role : option gemini_role;
  g_text : pystr
}.

(** The request body.  The constants [topP], [topK] and [safetySettings]
    are left out. *)
Record gemini_request := GeminiRequest {
  contents : list gemini_content;
  temperature : Q;
  maxOutputTokens : Z
}.

Record config := Config {
  GEMINI_API_KEY : pystr;
  GEMINI_MODEL : pystr;
  AI_MAX_TOKENS : Z
}.

(** The body of the loop that formats the messages for Gemini. *)
Definition add_content (contents : list gemini_content) (msg : message)
  : list gemini_content :=
  match role_of msg with
  | System =>
    match contents with
    | [] => [ {| g_role := None; g_text := content msg |} ]
    | c0 :: rest =>
      {| g_role := g_role c0;
         g_text := content msg ++ [10%N; 10%N] ++ g_text c0 |} :: rest
    end
  | User => contents ++ [ {| g_role := Some GUser; g_text := content msg |} ]
  | Assistant => contents ++ [ {| g_role := Some GModel; g_text := content msg |} ]
  end.

Definition format_contents (messages : list message) : list gemini_content :=
  fold_left add_content messages [].

Definition api_url (model api_key : pystr) : pystr :=
  u8 "https://generativelanguage.googleapis.com/v1beta/models/" ++ model
    ++ u8 ":generateContent?key=" ++ api_key.

(** The dict [call_gemini_api] returns. *)
Record api_result := ApiResult {
  response : pystr;
  total_tokens : Z;
  input_tokens : Z;
  output_tokens : Z
}.

(** The exceptions [call_gemini_api] raises. *)
Inductive api_error :=
| NoApiKey      (* raise Exception('GEMINI_API_KEY ...') *)
| ApiTimeout    (* except requests.exceptions.Timeout *)
| ApiFailure.   (* except Exception as e *)

(** [sum(len(msg['content'].split()) for msg in messages)] *)
Definition count_input_tokens (messages : list message) : Z :=
  fold_right (fun msg acc => split_len (content msg) + acc) 0 messages.

(** [call_gemini_api]; [post] is [requests.post] with its 30 s timeout. *)
Definition call_gemini_api (cfg : config)
    (post : pystr → gemini_request → http_outcome)
    (messages : list message) (model : pystr) (temp : Q)
  : api_error + api_result :=
  let api_key := GEMINI_API_KEY cfg in
  let model := match model with [] => GEMINI_MODEL cfg | _ :: _ => model end in
  match api_key with
  | [] => inl NoApiKey
  | _ :: _ =>
    let data :=
      {| contents := format_contents messages;
         temperature := temp;
         maxOutputTokens := AI_MAX_TOKENS cfg |} in
    match post (api_url model api_key) data with
    | HttpTimeout => inl ApiTimeout
    | HttpFailure => inl ApiFailure
    | HttpResponse status_code body =>
      if negb (status_code =? 200) then inl ApiFailure
      else
        match body with
        | None => inl ApiFailure
        | Some result =>
          match candidate_text result with
          | Some ai_response =>
            let input_tokens := count_input_tokens messages in
            let output_tokens := split_len ai_response in
            inr {| response := ai_response;
                   total_tokens := input_tokens + output_tokens;
                   input_tokens := input_tokens;
                   output_tokens := output_tokens |}
          | None => inl ApiFailure
          end
        end
    end
  end.

Definition emergency_fallback : pystr :=
  u8 "🚨 **ملاحظة مهمة**: يبدو أن رسالتك تحتوي على كلمات طارئة.

💡 **تذكير عاجل**: 
- للحالات الطارئة، يرجى الاتصال بالطوارئ على الرقم 123
- توجه لأقرب مستشفى أو مركز طوارئ
- لا تنتظر الرد في الحالات الحرجة

⚠️ **نظام المساعدة الطبية غير متوفر حاليًا**. 
يرجى استخدام قنوات الطوارئ الرسمية للحصول على المساعدة الفورية.".

Definition general_fallback : pystr :=
  u8 "مرحبًا! 👋

عذرًا، نظام المساعدة الطبية غير متوفر حاليًا. 

💡 **نصائح عامة**:
1. للحالات الطارئة: اتصل بالطوارئ على 123
2. للمواعيد: راجع طبيبك الخاص
3. للتساؤلات العامة: يمكنك البحث في قسم الأسئلة الشائعة

🔧 **حاول مرة أخرى لاحقًا**، أو:
- استخدم ميزة البحث في التطبيق
- راجع مكتبة المعلومات الصحية
- تحقق من قسم الوصفات والنصائح

نعتذر للإزعاج ونعمل على حل المشكلة.".

(** [get_fallback_response] *)
Definition get_fallback_response (message : pystr) (is_emergency : bool) : pystr :=
  if is_emergency then emergency_fallback else general_fallback.

(** ** The handlers ([routes/ai.py]) *)

(** A row of [ai_chat_messages]. *)
Record chat_row := ChatRow {
  r_id : pystr;
  r_user_id : pystr;
  r_message : pystr;
  r_response : pystr;
  r_model : pystr;
  r_tokens_used : Z;
  r_is_user : bool;
  r_created_at : Z
}.

Record database := Database {
  users : list user_row;
  ai_chat_messages : list chat_row
}.

(** [SELECT * FROM users WHERE id = ?] followed by [fetchone()]. *)
Definition select_user (d : database) (user_id : pystr) : option user_row :=
  List.find (fun u => bool_decide (u_id u = user_id)) (users d).

(** [ORDER BY created_at DESC]: the row on the left is not older. *)
Definition newer_first (a b : chat_row) : Prop := r_created_at b ≤ r_created_at a.

#[global] Instance newer_first_dec a b : Decision (newer_first a b) :=
  Z_le_dec (r_created_at b) (r_created_at a).

(** [SELECT message, response, created_at FROM ai_chat_messages
     WHERE user_id = ? ORDER BY created_at DESC LIMIT 6].  SQL leaves the
    order of rows with equal dates open; the sort here is one such order. *)
Definition select_recent (d : database) (user_id : pystr) : list chat_row :=
  take 6 (merge_sort newer_first
            (filter (fun r => r_user_id r = user_id) (ai_chat_messages d))).

(** The loop over [reversed(context_messages)]. *)
Definition build_context (context_messages : list chat_row) : list message :=
  flat_map (fun msg =>
              [ {| role_of := User; content := r_message msg |};
                {| role_of := Assistant; content := r_response msg |} ])
           (reverse context_messages).

(** The list bound to [messages]. *)
Definition build_messages (profile : user_row) (context : list message)
    (sanitized_message : pystr) : list message :=
  {| role_of := System; content := create_system_prompt (Some profile) |}
    :: context ++ [ {| role_of := User; content := sanitized_message |} ].

(** *** Request bodies and their schemas ([schemas/__init__.py])

    A request body is the document [request.json].  A schema refuses it
    with a [ValidationError], [None] below, when it is not an object, when
    it has a key that is no field of the schema (marshmallow's default
    [unknown = RAISE]), when a required field is absent, and when a field
    does not deserialize or fails its validator; [null] deserializes in no
    field but one declared [allow_none]. *)

Definition only_keys (names : list pystr) (fields : list (pystr * json)) : bool :=
  forallb (fun kv => bool_decide (kv.1 ∈ names)) fields.

(** [fields.String]: a [str]. *)
Definition String_field (j : json) : option pystr := as_str j.

(** [fields.Boolean]: a member of its [truthy] or of its [falsy] set; the
    numbers are compared with [==], so [1.0] is read as [1]. *)
Definition Boolean_truthy : list pystr :=
  [ u8 "t"; u8 "T"; u8 "true"; u8 "True"; u8 "TRUE"; u8 "on"; u8 "On"; u8 "ON";
    u8 "y"; u8 "Y"; u8 "yes"; u8 "Yes"; u8 "YES"; u8 "1" ].

Definition Boolean_falsy : list pystr :=
  [ u8 "f"; u8 "F"; u8 "false"; u8 "False"; u8 "FALSE"; u8 "off"; u8 "Off";
    u8 "OFF"; u8 "n"; u8 "N"; u8 "no"; u8 "No"; u8 "NO"; u8 "0" ].

Definition Boolean_field (j : json) : option bool :=
  match j with
  | JBool b => Some b
  | JInt n => if n =? 1 then Some true else if n =? 0 then Some false else None
  | JFloat q =>
    if Qeq_bool q 1 then Some true else if Qeq_bool q 0 then Some false else None
  | JStr s =>
    if bool_decide (s ∈ Boolean_truthy) then Some true
    else if bool_decide (s ∈ Boolean_falsy) then Some false
    else None
  | _ => None
  end.

Section Numbers.

(** [float(s)] and [int(s)] for a [str]; [None] is the [ValueError],
    and for [float] also the infinities and NaN that the field refuses. *)
Variable str_float : pystr → option Q.
Variable str_int : pystr → option Z.

(** [fields.Float]: [float(value)] of anything but a [bool]. *)
Definition Float_field (j : json) : option Q :=
  match j with
  | JInt n => Some (inject_Z n)
  | JFloat q => Some q
  | JStr s => str_float s
  | _ => None
  end.

(** [fields.Integer], not strict: [int(value)] of anything but a [bool];
    a float loses its fraction. *)
Definition Integer_field (j : json) : option Z :=
  match j with
  | JInt n => Some n
  | JFloat q => Some (Z.quot (Qnum q) (Z.pos (Qden q)))
  | JStr s => str_int s
  | _ => None
  end.

End Numbers.

(** The keys of the dict [ChatSchema().load] returns that [chat] reads. *)
Record chat_input := ChatInput {
  in_message : pystr;
  in_model : pystr;
  in_temperature : Q
}.

(** [ChatSchema().load(request.json)] *)
Definition ChatSchema_load (str_float : pystr → option Q) (body : json)
  : option chat_input :=
  match body with
  | JDict fields =>
    if only_keys [u8 "message"; u8 "model"; u8 "temperature"; u8 "stream"] fields
    then
      raw ← assoc (u8 "message") fields;
      message ← String_field raw;
      model ← from_option String_field (Some (u8 "gemini-2.5-flash"))
                          (assoc (u8 "model") fields);
      temperature ← from_option (Float_field str_float) (Some (7 # 10)%Q)
                                (assoc (u8 "temperature") fields);
      stream ← from_option Boolean_field (Some false) (assoc (u8 "stream") fields);
      if (1 <=? length message)%nat && (length message <=? 5000)%nat
         && Qle_bool (1 # 10) temperature && Qle_bool temperature 2
      then Some {| in_message := message; in_model := model;
                   in_temperature := temperature |}
      else None
    else None
  | _ => None
  end.

(** The ['data'] object of a chat reply, with the ['meta'] rate-limit pair. *)
Record chat_data := ChatData {
  d_response : pystr;
  d_message_id : pystr;
  d_tokens_used : Z;
  d_model : pystr;
  d_timestamp : Z;
  d_is_emergency : bool;
  d_remaining : Z;
  d_reset_after : Z
}.

Inductive body :=
| Failure (error : pystr)
| ChatReply (data : chat_data)
| Cleared (message : pystr) (deleted_count : Z).

Record http_response := HttpReply {
  status : Z;
  success : bool;
  payload : body;
  headers : list (pystr * pystr)
}.

Definition failure (code : Z) (error : pystr) : http_response :=
  {| status := code; success := false; payload := Failure error; headers := [] |}.

(** The process state the handlers share: the module-level limiter and
    the database. *)
Record state := State {
  limiter : AIRateLimiter;
  db : database
}.

(** What one request reads from outside: the clock at the rate check,
    the answer of the HTTP call, the fresh uuid and the clock at the save. *)
Record world := World {
  clock_check : Z;
  http_post : pystr → gemini_request → http_outcome;
  uuid4 : pystr;
  clock_save : Z
}.

(** The headers [get_headers] gives, as strings. *)
Definition rate_headers (self : AIRateLimiter) (user_id : pystr)
  : list (pystr * pystr) :=
  match get_headers self user_id with
  | None => []
  | Some (l, rem, reset) =>
    [ (u8 "X-RateLimit-Limit", str_of_int l);
      (u8 "X-RateLimit-Remaining", str_of_int rem);
      (u8 "X-RateLimit-Reset", str_of_int reset) ]
  end.

(** The 429 text: [int(rate_limit["resetAfter"] / 60000)] minutes. *)
Definition wait_message (r : rate_result) : pystr :=
  u8 "لقد تجاوزت الحد المسموح به من الطلبات. يرجى المحاولة بعد "
    ++ str_of_int (Z.quot (resetAfter r) 60000) ++ u8 " دقائق.".

(** The reply of [error_handler] when the handler itself raises. *)
Definition server_error : http_response := failure 500 (u8 "حدث خطأ في الخادم").

(** The text put around a successful answer to an emergency message. *)
Definition with_emergency_note (ai_response : pystr) : pystr :=
  u8 "🚨 **ملاحظة مهمة**: يبدو أن رسالتك تحتوي على كلمات طارئة.

" ++ ai_response ++ u8 "

💡 **تذكير**: للحالات الطارئة، يرجى الاتصال بالطوارئ على 123 أو التوجه لأقرب مستشفى.".

(** [cursor.execute] hands the parameters to psycopg2, which quotes a
    [str] itself and raises [ValueError] with this text when the string
    holds U+0000. *)
Definition has_nul (s : pystr) : bool := existsb (N.eqb 0) s.

Definition nul_error : pystr :=
  u8 "A string literal cannot contain NUL (0x00) characters.".

(** What [chat] has in hand when it reaches the completion call. *)
Record prepared := Prepared {
  p_limiter : AIRateLimiter;
  p_rate_limit : rate_result;
  p_rate_headers : list (pystr * pystr);
  p_sanitized : pystr;
  p_is_emergency : bool;
  p_messages : list message
}.

Inductive stage :=
| Replied (r : http_response) (st : state)
| Ready (p : prepared).

(** The completion call of [chat] and its [except] clause: the text to
    answer with and the token count. *)
Definition chat_complete (cfg : config) (w : world) (p : prepared)
    (data : chat_input) : pystr * Z :=
  let sanitized_message := p_sanitized p in
  let is_emergency := p_is_emergency p in
  match call_gemini_api cfg (http_post w) (p_messages p) (in_model data)
                        (in_temperature data) with
  | inr result =>
    let ai_response := response result in
    (if is_emergency && negb (contains (u8 "🚨") ai_response)
                     && negb (contains (u8 "طارئ") ai_response)
     then with_emergency_note ai_response else ai_response,
     total_tokens result)
  | inl api_error =>
    let ai_response := get_fallback_response sanitized_message is_emergency in
    (ai_response, split_len sanitized_message + split_len ai_response)
  end.

(** The [INSERT INTO ai_chat_messages]: the row is appended, or the driver
    raises on one of the texts that come from outside, the message, the
    answer and the model name; [inl] is the text of the exception. *)
Definition insert_chat_row (d : database) (row : chat_row) : pystr + database :=
  if has_nul (r_message row) || has_nul (r_response row) || has_nul (r_model row)
  then inl nul_error
  else inr {| users := users d; ai_chat_messages := ai_chat_messages d ++ [row] |}.

Section Handlers.

(** [str.lower], which follows the Unicode case tables, and [float(s)]. *)
Variable str_lower : pystr → pystr.
Variable str_float : pystr → option Q.

(** [check_emergency_keywords] *)
Definition check_emergency_keywords (message : pystr) : bool :=
  let message_lower := str_lower message in
  any_keyword_in emergency_keywords message_lower.

(** [chat] from the rate check to the message list. *)
Definition chat_prepare (st : state) (user_id : pystr) (data : chat_input)
    (now : Z) : stage :=
  let '(rate_limit, limiter') := check (limiter st) user_id now in
  let st' := {| limiter := limiter'; db := db st |} in
  if negb (allowed rate_limit) then
    Replied (failure 429 (wait_message rate_limit)) st'
  else
    let rate_headers := rate_headers limiter' user_id in
    let sanitized_message := sanitize_message (in_message data) in
    match sanitized_message with
    | [] => Replied (failure 400 (u8 "الرسالة لا يمكن أن تكون فارغة")) st'
    | _ :: _ =>
      let is_emergency := check_emergency_keywords sanitized_message in
      match select_user (db st) user_id with
      | None => Replied (failure 404 (u8 "المستخدم غير موجود")) st'
      | Some profile =>
        let context_messages := select_recent (db st) user_id in
        let context := build_context context_messages in
        Ready {| p_limiter := limiter';
                 p_rate_limit := rate_limit;
                 p_rate_headers := rate_headers;
                 p_sanitized := sanitized_message;
                 p_is_emergency := is_emergency;
                 p_messages := build_messages profile context sanitized_message |}
      end
    end.

(** [chat], the handler of [POST /chat], for the authenticated [user_id].
    A [ValidationError] of the schema leaves the handler through its
    [finally] clause, where [cursor] is not yet bound, and ends as the 500
    of [error_handler].  When the [INSERT] raises, the handler's own
    [except] answers 500 with the text of the exception. *)
Definition chat (cfg : config) (w : world) (st : state) (user_id : pystr)
    (body : json) : http_response * state :=
  match ChatSchema_load str_float body with
  | None => (server_error, st)
  | Some data =>
    let model := in_model data in
    match chat_prepare st user_id data (clock_check w) with
    | Replied r st' => (r, st')
    | Ready p =>
      let sanitized_message := p_sanitized p in
      let is_emergency := p_is_emergency p in
      let '(ai_response, tokens_used) := chat_complete cfg w p data in
      let message_id := uuid4 w in
      let now := clock_save w in
      let row :=
        {| r_id := message_id; r_user_id := user_id;
           r_message := sanitized_message; r_response := ai_response;
           r_model := model; r_tokens_used := tokens_used;
           r_is_user := true; r_created_at := now |} in
      match insert_chat_row (db st) row with
      | inl error => (failure 500 error, {| limiter := p_limiter p; db := db st |})
      | inr db' =>
        ({| status := 200;
            success := true;
            payload := ChatReply
              {| d_response := ai_response;
                 d_message_id := message_id;
                 d_tokens_used := tokens_used;
                 d_model := model;
                 d_timestamp := now;
                 d_is_emergency := is_emergency;
                 d_remaining := remaining (p_rate_limit p);
                 d_reset_after := Z.quot (resetAfter (p_rate_limit p)) 1000 |};
            headers := p_rate_headers p |},
         {| limiter := p_limiter p; db := db' |})
      end
    end
  end.

End Handlers.

(** The dict [ClearHistorySchema().load] returns; an absent
    [older_than_days] and a [null] one are both read as [None]. *)
Record clear_input := ClearInput {
  in_confirm : bool;
  in_older_than_days : option Z
}.

(** [ClearHistorySchema().load(request.json)] *)
Definition ClearHistorySchema_load (str_int : pystr → option Z) (body : json)
  : option clear_input :=
  match body with
  | JDict fields =>
    if only_keys [u8 "confirm"; u8 "older_than_days"] fields then
      confirm ← from_option Boolean_field (Some false) (assoc (u8 "confirm") fields);
      older_than_days ←
        match assoc (u8 "older_than_days") fields with
        | None | Some JNull => Some None
        | Some raw =>
          d ← Integer_field str_int raw;
          if (1 <=? d) && (d <=? 365) then Some (Some d) else None
        end;
      Some {| in_confirm := confirm; in_older_than_days := older_than_days |}
    else None
  | _ => None
  end.

(** [timedelta(days=d)] in microseconds. *)
Definition days (d : Z) : Z := d * 86400 * 1000000.

(** The rows the [DELETE] statement matches: [user_id = %s], and
    [created_at < cutoff_date] when [older_than_days] is given. *)
Definition doomed (user_id : pystr) (older_than_days : option Z) (now : Z)
    (r : chat_row) : Prop :=
  r_user_id r = user_id ∧
  match get_int older_than_days with
  | Some d => r_created_at r < now - days d
  | None => True
  end.

#[global] Instance doomed_dec user_id older now r :
  Decision (doomed user_id older now r).
Proof. unfold doomed. destruct (get_int older); apply _. Defined.

(** [clear_history], the handler of [DELETE /history]; [now] is the
    clock at the cutoff computation. *)
Definition clear_history (str_int : pystr → option Z) (st : state)
    (user_id : pystr) (body : json) (now : Z) : http_response * state :=
  match ClearHistorySchema_load str_int body with
  | None => (failure 500 (u8 "حدث خطأ أثناء مسح سجل المحادثة"), st)
  | Some data =>
    if negb (in_confirm data) then
      (failure 400 (u8 "يرجى التأكيد على رغبتك في مسح سجل المحادثة"), st)
    else
      let older_than_days := in_older_than_days data in
      let table := ai_chat_messages (db st) in
      let gone := doomed user_id older_than_days now in
      let deleted_count := Z.of_nat (length (filter gone table)) in
      let message :=
        match get_int older_than_days with
        | Some d => u8 "تم مسح المحادثات الأقدم من " ++ str_of_int d ++ u8 " يوم"
        | None => u8 "تم مسح سجل المحادثة بالكامل"
        end in
      ({| status := 200; success := true;
          payload := Cleared message deleted_count; headers := [] |},
       {| limiter := limiter st;
          db := {| users := users (db st);
                   ai_chat_messages := filter (fun r => ¬ gone r) table |} |})
  end.

(** The messages between the first and the last one of the list handed
    to the completion call. *)
Definition history (messages : list message) : list message :=
  removelast (tail messages).

(** The total of the usage report in a Gemini response body
    ([usageMetadata.totalTokenCount]), when the body carries one. *)
Definition usage_report (result : json) : option Z :=
  um ← getitem (u8 "usageMetadata") result;
  t ← getitem (u8 "totalTokenCount") um;
  match t with
  | JInt n => Some n
  | _ => None
  end.

(** The token count in the words of the specification: the provider's
    usage report if one is available, the word counts otherwise. *)
Definition reported_or_estimated (result : json) (messages : list message)
    (ai_response : pystr) : Z :=
  match usage_report result with
  | Some n => n
  | None => count_input_tokens messages + split_len ai_response
  end.

End Gateway.

(** ** [check] under threads

    The module-level [ai_rate_limiter] is shared by the request threads of
    the process and [AIRateLimiter] takes no lock, so the statements of two
    [check] calls can interleave.  Here the outer dict holds references to
    the inner dicts, as in the interpreter, and one step of a thread is one
    statement of [check]; the interpreter can also switch inside a
    statement, so every schedule below is one it can take. *)

Module Threads.

Import Limiter.
Local Open Scope Z_scope.

Record store := Store {
  table : gmap pystr nat;   (* self.requests: key to the reference of a dict *)
  heap : list window;       (* the inner dicts, by reference *)
  s_limit : Z;              (* self.limit *)
  s_window_minutes : Z      (* self.window_minutes *)
}.

Definition empty_store : store :=
  {| table := ∅; heap := []; s_limit := 60; s_window_minutes := 15 |}.

Definition span (σ : store) : Z := s_window_minutes σ * 60 * 1000000.

Definition set_heap (σ : store) (h : list window) : store :=
  {| table := table σ; heap := h;
     s_limit := s_limit σ; s_window_minutes := s_window_minutes σ |}.

(** The statement a call is about to run; [ud] is the local [user_data]
    and [we] the local [window_end]. *)
Inductive pc :=
| AtEntry                          (* if key not in self.requests: *)
| AtCreate                         (*   self.requests[key] = {...}; return *)
| AtLoad                           (* user_data = self.requests[key] *)
| AtWindowEnd (ud : nat)           (* window_end = user_data['window_start']... *)
| AtExpired (ud : nat) (we : Z)    (* if now.timestamp() > window_end: *)
| AtResetCount (ud : nat)          (*   user_data['count'] = 1 *)
| AtResetStart (ud : nat)          (*   user_data['window_start'] = now *)
| AtResetTime (ud : nat)           (*   user_data['reset_time'] = ...; return *)
| AtLimit (ud : nat)               (* if user_data['count'] >= self.limit: *)
| AtReject (ud : nat)              (*   return {'allowed': False, ...} *)
| AtIncrement (ud : nat)           (* user_data['count'] += 1 *)
| AtReturn (ud : nat)              (* return {'allowed': True, ...} *)
| Done (r : rate_result).

Record thread := Thread {
  t_user : pystr;
  t_now : Z;
  t_pc : pc
}.

(** A call of [check user_id] that has read the clock. *)
Definition start (user_id : pystr) (now : Z) : thread :=
  {| t_user := user_id; t_now := now; t_pc := AtEntry |}.

Definition goto (t : thread) (p : pc) : thread :=
  {| t_user := t_user t; t_now := t_now t; t_pc := p |}.

Definition fresh_result (σ : store) : rate_result :=
  {| allowed := true; remaining := s_limit σ - 1;
     resetAfter := s_window_minutes σ * 60 * 1000 |}.

(** One statement of thread [t]; [None] when the statement raises. *)
Definition step (σ : store) (t : thread) : option (store * thread) :=
  let key := key_of (t_user t) in
  let now := t_now t in
  match t_pc t with
  | AtEntry =>
    match table σ !! key with
    | None => Some (σ, goto t AtCreate)
    | Some _ => Some (σ, goto t AtLoad)
    end
  | AtCreate =>
    let w := {| count := 1; window_start := now; reset_time := now + span σ |} in
    Some ({| table := <[key := length (heap σ)]> (table σ);
             heap := heap σ ++ [w];
             s_limit := s_limit σ; s_window_minutes := s_window_minutes σ |},
          goto t (Done (fresh_result σ)))
  | AtLoad =>
    ud ← table σ !! key; Some (σ, goto t (AtWindowEnd ud))
  | AtWindowEnd ud =>
    w ← heap σ !! ud; Some (σ, goto t (AtExpired ud (window_start w + span σ)))
  | AtExpired ud we =>
    if now >? we then Some (σ, goto t (AtResetCount ud))
    else Some (σ, goto t (AtLimit ud))
  | AtResetCount ud =>
    w ← heap σ !! ud;
    Some (set_heap σ (<[ud := {| count := 1; window_start := window_start w;
                                  reset_time := reset_time w |}]> (heap σ)),
          goto t (AtResetStart ud))
  | AtResetStart ud =>
    w ← heap σ !! ud;
    Some (set_heap σ (<[ud := {| count := count w; window_start := now;
                                  reset_time := reset_time w |}]> (heap σ)),
          goto t (AtResetTime ud))
  | AtResetTime ud =>
    w ← heap σ !! ud;
    Some (set_heap σ (<[ud := {| count := count w; window_start := window_start w;
                                  reset_time := now + span σ |}]> (heap σ)),
          goto t (Done (fresh_result σ)))
  | AtLimit ud =>
    w ← heap σ !! ud;
    if count w >=? s_limit σ then Some (σ, goto t (AtReject ud))
    else Some (σ, goto t (AtIncrement ud))
  | AtReject ud =>
    w ← heap σ !! ud;
    Some (σ, goto t (Done {| allowed := false; remaining := 0;
                             resetAfter :=
                               millis_until (s_window_minutes σ) (reset_time w) now |}))
  | AtIncrement ud =>
    w ← heap σ !! ud;
    Some (set_heap σ (<[ud := {| count := count w + 1;
                                  window_start := window_start w;
                                  reset_time := reset_time w |}]> (heap σ)),
          goto t (AtReturn ud))
  | AtReturn ud =>
    w ← heap σ !! ud;
    Some (σ, goto t (Done {| allowed := true;
                             remaining := s_limit σ - count w;
                             resetAfter :=
                               millis_until (s_window_minutes σ) (reset_time w) now |}))
  | Done r => Some (σ, t)
  end.

(** The threads take steps in the order the schedule names them. *)
Fixpoint run_schedule (σ : store) (pool : list thread) (sched : list nat)
  : option (store * list thread) :=
  match sched with
  | [] => Some (σ, pool)
  | i :: rest =>
    t ← pool !! i;
    '(σ', t') ← step σ t;
    run_schedule σ' (<[i := t']> pool) rest
  end.

(** One call alone, run to its [return]: no other thread takes a step
    in between.  A call takes at most seven statements. *)
Fixpoint finish (fuel : nat) (σ : store) (t : thread) : option (rate_result * store) :=
  match t_pc t with
  | Done r => Some (r, σ)
  | _ =>
    match fuel with
    | O => None
    | S fuel' => '(σ', t') ← step σ t; finish fuel' σ' t'
    end
  end.

Definition call (σ : store) (user_id : pystr) (now : Z) : option (rate_result * store) :=
  finish 7 σ (start user_id now).

(** The limiter a store stands for: each key with the dict it refers to. *)
Definition limiter_of (σ : store) : AIRateLimiter :=
  {| requests := omap (fun ud => heap σ !! ud) (table σ);
     limit := s_limit σ;
     window_minutes := s_window_minutes σ |}.

(** Every reference is to a dict of the heap, and no dict has two keys. *)
Definition well_formed (σ : store) : Prop :=
  (∀ k ud, table σ !! k = Some ud → (ud < length (heap σ))%nat) ∧
  (∀ k1 k2 ud, table σ !! k1 = Some ud → table σ !! k2 = Some ud → k1 = k2).

(** Two calls of one user are atomic when every schedule that runs both
    to their end leaves the results and the limiter of one of the two
    serial orders. *)
Definition serial (σ : store) (u : pystr) (t1 t2 : Z)
  : option (rate_result * rate_result * AIRateLimiter) :=
  '(r1, σ1) ← call σ u t1;
  '(r2, σ2) ← call σ1 u t2;
  Some (r1, r2, limiter_of σ2).

Definition atomic_per_user : Prop :=
  ∀ σ u tA tB sched σ' rA rB,
    well_formed σ →
    run_schedule σ [start u tA; start u tB] sched
      = Some (σ', [goto (start u tA) (Done rA); goto (start u tB) (Done rB)]) →
    serial σ u tA tB = Some (rA, rB, limiter_of σ') ∨
    serial σ u tB tA = Some (rB, rA, limiter_of σ').

End Threads.

(** ** Sample data *)

Module Samples.

Import Limiter Gateway.
Local Open Scope Z_scope.

Definition alice : pystr := u8 "u-1".
Definition bob : pystr := u8 "u-2".

Definition sample_config : config :=
  {| GEMINI_API_KEY := u8 "key"; GEMINI_MODEL := u8 "gemini-2.5-flash";
     AI_MAX_TOKENS := 4096 |}.

Definition alice_row : user_row :=
  {| u_id := alice; u_diseases := Some (u8 "سكري"); u_allergies := None;
     u_medications := None; u_age := Some 41; u_gender := Some (u8 "female") |}.

Definition bob_row : user_row :=
  {| u_id := bob; u_diseases := None; u_allergies := None;
     u_medications := None; u_age := None; u_gender := None |}.

(** A stored turn of [user_id], saved [day] days after the epoch. *)
Definition turn (id user_id question answer : pystr) (day : Z) : chat_row :=
  {| r_id := id; r_user_id := user_id; r_message := question;
     r_response := answer; r_model := u8 "gemini-2.5-flash";
     r_tokens_used := 2; r_is_user := true; r_created_at := days day |}.

(** Six turns of alice and one of bob, not in the order of their dates. *)
Definition seven_turns : list chat_row :=
  [ turn (u8 "m-3") alice (u8 "q3") (u8 "a3") 3;
    turn (u8 "m-1") alice (u8 "q1") (u8 "a1") 1;
    turn (u8 "m-6") alice (u8 "q6") (u8 "a6") 6;
    turn (u8 "m-b") bob (u8 "qb") (u8 "ab") 2;
    turn (u8 "m-2") alice (u8 "q2") (u8 "a2") 2;
    turn (u8 "m-5") alice (u8 "q5") (u8 "a5") 5;
    turn (u8 "m-4") alice (u8 "q4") (u8 "a4") 4 ].

Definition sample_state : state :=
  {| limiter := init;
     db := {| users := [alice_row; bob_row]; ai_chat_messages := seven_turns |} |}.

(** A world whose HTTP call times out. *)
Definition offline : world :=
  {| clock_check := days 40; http_post := fun _ _ => HttpTimeout;
     uuid4 := u8 "m-7"; clock_save := days 40 + 1 |}.

(** An answer of the provider that carries a usage report of 100 tokens. *)
Definition answer_with_usage : json :=
  JDict
    [ (u8 "candidates",
       JList [ JDict [ (u8 "content",
                        JDict [ (u8 "parts",
                                 JList [ JDict [ (u8 "text", JStr (u8 "drink water")) ] ]) ]) ] ]);
      (u8 "usageMetadata", JDict [ (u8 "totalTokenCount", JInt 100) ]) ].

Definition online : world :=
  {| clock_check := days 40;
     http_post := fun _ _ => HttpResponse 200 (Some answer_with_usage);
     uuid4 := u8 "m-7"; clock_save := days 40 + 1 |}.

(** The body [{"message": text}]. *)
Definition ask (text : pystr) : json := JDict [ (u8 "message", JStr text) ].

(** What [ChatSchema] makes of two request bodies. *)
Definition hello_input : chat_input :=
  {| in_message := u8 "hello"; in_model := u8 "gemini-2.5-flash";
     in_temperature := (7 # 10)%Q |}.


(** The state after alice has used up her sixty requests at day 40. *)
Definition exhausted_state : state :=
  {| limiter := (run init (repeat (alice, days 40) 60)).2;
     db := db sample_state |}.

(** The prompt of one user message. *)
Definition one_question : list message :=
  [ {| role_of := User; content := u8 "what helps a cold" |} ].

End Samples.

(** ** The feedback handler ([routes/ai.py]) *)

Module Feedback.

Import Gateway.
Local Open Scope Z_scope.


(** The character class [[0-9a-f]]. *)
Definition is_hex (c : N) : bool :=
  ((48 <=? c) && (c <=? 57) || (97 <=? c) && (c <=? 102))%N.

(** [[0-9a-f]{n}] at the head of [s]: what is left of [s] after it. *)
Fixpoint hex_run (n : nat) (s : pystr) : option pystr :=
  match n with
  | O => Some s
  | S n' =>
    match s with
    | c :: r => if is_hex c then hex_run n' r else None
    | [] => None
    end
  end.

(** [-] at the head of [s]. *)
Definition dash (s : pystr) : option pystr :=
  match s with
  | c :: r => if (c =? 45)%N then Some r else None
  | [] => None
  end.

(** [re.match] of the pattern
    [^[0-9a-f]{8}-[0-9a-f]{4}-[0-9a-f]{4}-[0-9a-f]{4}-[0-9a-f]{12}$];
    [$] also matches before a newline that ends the string. *)
Definition matches_uuid (s : pystr) : bool :=
  match (s1 ← hex_run 8 s; s2 ← dash s1;
         s3 ← hex_run 4 s2; s4 ← dash s3;
         s5 ← hex_run 4 s4; s6 ← dash s5;
         s7 ← hex_run 4 s6; s8 ← dash s7;
         hex_run 12 s8) with
  | Some [] => true
  | Some [c] => (c =? 10)%N
  | _ => false
  end.






End Feedback.

(** ** Notions used to state further properties *)

Module Notions.

Import Limiter Gateway.
Local Open Scope Z_scope.

(** A string of whitespace only. *)
Definition blank (s : pystr) : Prop := Forall (fun c => is_space c = true) s.

(** The element of [contents] made from a message that is not a system
    message. *)
Definition to_content (msg : message) : gemini_content :=
  {| g_role := Some (match role_of msg with User => GUser | _ => GModel end);
     g_text := content msg |}.

(** Two limiters that hold the same window for [u] and the same settings. *)
Definition agree (u : pystr) (a b : AIRateLimiter) : Prop :=
  requests a !! key_of u = requests b !! key_of u ∧
  limit a = limit b ∧ window_minutes a = window_minutes b.

(** The calls of one user among a sequence of calls. *)
Definition calls_of (u : pystr) (calls : list (pystr * Z)) : list (pystr * Z) :=
  filter (fun c => c.1 = u) calls.

(** Bodies that [ChatSchema] refuses, among others: one that is not an
    object, one with a key that is no field of the schema, one without a
    message, one whose message is [null], not a string, empty or longer
    than 5000 characters, and one whose temperature is [null] or a number
    outside 0.1 to 2.0. *)
Definition chat_fields : list pystr :=
  [u8 "message"; u8 "model"; u8 "temperature"; u8 "stream"].

Definition invalid_chat_request (body : json) : Prop :=
  (∀ fields, body ≠ JDict fields) ∨
  (∃ k v, getitem k body = Some v ∧ k ∉ chat_fields) ∨
  getitem (u8 "message") body = None ∨
  (∃ v, getitem (u8 "message") body = Some v ∧ ∀ m, v ≠ JStr m) ∨
  (∃ m, getitem (u8 "message") body = Some (JStr m) ∧
        (length m = 0%nat ∨ (5000 < length m)%nat)) ∨
  getitem (u8 "temperature") body = Some JNull ∨
  (∃ n, getitem (u8 "temperature") body = Some (JInt n) ∧ ¬ (1 ≤ n ≤ 2)) ∨
  (∃ q, getitem (u8 "temperature") body = Some (JFloat q) ∧
        (¬ (1 # 10 <= q)%Q ∨ ¬ (q <= 2)%Q)).


(** The caller's [confirm] is one the schema reads as true. *)
Definition confirmed (body : json) : Prop :=
  ∃ v, getitem (u8 "confirm") body = Some v ∧ Boolean_field v = Some true.

End Notions.

(** ** More sample data *)

Module MoreSamples.

Import Limiter Gateway Feedback Samples.
Local Open Scope Z_scope.

Definition sample_uuid : pystr := u8 "0a1b2c3d-0000-4111-8222-0123456789ab".



(** A world whose provider answers with a plain text. *)
Definition answering (text : pystr) : world :=
  {| clock_check := days 40;
     http_post := fun _ _ =>
       HttpResponse 200
         (Some (JDict
            [ (u8 "candidates",
               JList [ JDict [ (u8 "content",
                  JDict [ (u8 "parts",
                     JList [ JDict [ (u8 "text", JStr text) ] ]) ]) ] ]) ]));
     uuid4 := sample_uuid; clock_save := days 40 + 1 |}.

(** A user registered with the Arabic word for male. *)
Definition omar_row : user_row :=
  {| u_id := u8 "u-3"; u_diseases := None; u_allergies := None;
     u_medications := None; u_age := None; u_gender := Some (u8 "ذكر") |}.

(** The sample database with its chat table in the opposite order. *)
Definition reversed_db : database :=
  {| users := users (db sample_state);
     ai_chat_messages := reverse (ai_chat_messages (db sample_state)) |}.

(** The bodies [{"confirm": true}] and
    [{"confirm": confirm, "older_than_days": d}]. *)
Definition clear_all : json := JDict [ (u8 "confirm", JBool true) ].

Definition clear_older (confirm : json) (d : Z) : json :=
  JDict [ (u8 "confirm", confirm); (u8 "older_than_days", JInt d) ].



(** The limiter after alice's sixty calls at instant 5. *)
Definition full_limiter : AIRateLimiter := (run init (repeat (alice, 5) 60)).2.

End MoreSamples.

(** * Properties of the rate limiter *)

Module LimiterFacts.

Import Limiter.
Local Open Scope Z_scope.

Lemma key_of_inj u v : key_of u = key_of v → u = v.
Proof. unfold key_of. apply app_inv_head. Qed.

Lemma check_limit self u t : limit (check self u t).2 = limit self.
Proof.
  unfold check. destruct (requests self !! key_of u) as [w|]; [|done].
  destruct (t >? _); [done|]. by destruct (count w >=? _).
Qed.

Lemma check_window_minutes self u t :
  window_minutes (check self u t).2 = window_minutes self.
Proof.
  unfold check. destruct (requests self !! key_of u) as [w|]; [|done].
  destruct (t >? _); [done|]. by destruct (count w >=? _).
Qed.


(** A call touches the caller's key only. *)
Lemma check_other_key self u t k :
  k ≠ key_of u → requests (check self u t).2 !! k = requests self !! k.
Proof.
  intros Hk. unfold check. destruct (requests self !! key_of u) as [w|].
  - destruct (t >? _); simpl; [by rewrite lookup_insert_ne|].
    destruct (count w >=? _); simpl; [done|]. by rewrite lookup_insert_ne.
  - simpl. by rewrite lookup_insert_ne.
Qed.

Lemma check_other_user self u v t :
  u ≠ v → requests (check self v t).2 !! key_of u = requests self !! key_of u.
Proof. intros Huv. apply check_other_key. intros E. by apply key_of_inj in E. Qed.

(** A rejected call writes nothing. *)
Lemma check_rejected_same self u t :
  allowed (check self u t).1 = false → (check self u t).2 = self.
Proof.
  unfold check. destruct (requests self !! key_of u) as [w|]; [|done].
  destruct (t >? _); [done|]. by destruct (count w >=? _).
Qed.

Lemma sound_init : sound init.
Proof. do 2 (split; [done|]). intros k w Hk. cbn in Hk. by rewrite lookup_empty in Hk. Qed.

Lemma sound_check self u t : sound self → sound (check self u t).2.
Proof.
  intros (HL & HW & Hall).
  split; [by rewrite check_limit|]. split; [by rewrite check_window_minutes|].
  intros k w. destruct (decide (k = key_of u)) as [->|Hk].
  - unfold check, window_span. rewrite HL, HW.
    destruct (requests self !! key_of u) as [w0|] eqn:E; simpl.
    + destruct (t >? _); simpl.
      { rewrite lookup_insert_eq. intros [= <-]. simpl. lia. }
      destruct (Z.geb_spec (count w0) 60); simpl.
      { rewrite E. intros [= <-]. eauto. }
      rewrite lookup_insert_eq. intros [= <-]. simpl.
      destruct (Hall _ _ E). lia.
    + rewrite lookup_insert_eq. intros [= <-]. simpl. lia.
  - rewrite check_other_key by done. apply Hall.
Qed.

Lemma reachable_sound self : reachable self → sound self.
Proof. induction 1; [apply sound_init | by apply sound_check]. Qed.

Lemma run_cons self u t rest :
  run self ((u, t) :: rest) =
    ((u, (check self u t).1) :: (run (check self u t).2 rest).1,
     (run (check self u t).2 rest).2).
Proof.
  simpl. destruct (check self u t) as [r s]. simpl. by destruct (run s rest).
Qed.

Lemma run_reachable calls : ∀ self, reachable self → reachable (run self calls).2.
Proof.
  induction calls as [|[u t] rest IH]; intros self Hr; [done|].
  rewrite run_cons. simpl. apply IH. by constructor.
Qed.

Lemma results_of_cons u v r rs :
  results_of u ((v, r) :: rs) =
    if decide (v = u) then r :: results_of u rs else results_of u rs.
Proof.
  unfold results_of. simpl. case_bool_decide; by case_decide.
Qed.





(** C10. After any sequence of calls made one after the other, no stored
    window has a count above the limit of 60, and a call that is rejected
    leaves the caller's stored window as it was. *)
Theorem count_never_exceeds_limit calls u now :
  let self := (run init calls).2 in
  (∀ v w, requests self !! key_of v = Some w → count w ≤ 60) ∧
  (allowed (check self u now).1 = false →
   requests (check self u now).2 !! key_of u = requests self !! key_of u).
Proof.
  intros self. split.
  - intros v w Hw.
    assert (Hs : sound self).
    { apply reachable_sound, run_reachable. constructor. }
    destruct Hs as (_ & _ & Hall). destruct (Hall _ _ Hw). lia.
  - intros Hrej. by rewrite check_rejected_same.
Qed.

(** ** The theorems at work on sample calls *)



Lemma count_never_exceeds_limit_witness :
  let calls := repeat (Samples.alice, 5) 60 in
  let self := (run init calls).2 in
  allowed (check self Samples.alice 6).1 = false ∧
  requests (check self Samples.alice 6).2 !! key_of Samples.alice
    = requests self !! key_of Samples.alice.
Proof.
  intros calls self.
  assert (Hrej : allowed (check self Samples.alice 6).1 = false).
  { vm_compute. reflexivity. }
  split; [exact Hrej|].
  apply (proj2 (count_never_exceeds_limit calls Samples.alice 6)).
  exact Hrej.
Defined.

End LimiterFacts.

(** * Properties of the string helpers *)

Module PyFacts.

Lemma starts_with_spec p : ∀ s, starts_with p s = true ↔ ∃ post, s = p ++ post.
Proof.
  induction p as [|a p IH]; intros s; simpl.
  - split; [eauto|done].
  - destruct s as [|b s].
    + split; [done|]. by intros [post ?].
    + rewrite andb_true_iff, N.eqb_eq, IH. split.
      * intros [-> [post ->]]. eauto.
      * intros [post [= -> ->]]. eauto.
Qed.

(** [p in s] holds exactly when [p] is a contiguous part of [s]. *)
Lemma contains_spec p : ∀ s, contains p s = true ↔ ∃ pre post, s = pre ++ p ++ post.
Proof.
  induction s as [|c s IH]; simpl; rewrite orb_true_iff, starts_with_spec.
  - split.
    + intros [[post Hp]|]; [|done]. exists [], post. done.
    + intros (pre & post & Hs). left. exists post.
      destruct pre; [done|discriminate].
  - rewrite IH. split.
    + intros [[post Hp]|(pre & post & ->)].
      * by exists [], post.
      * by exists (c :: pre), post.
    + intros (pre & post & Hs). destruct pre as [|c' pre].
      * left. by exists post.
      * right. injection Hs as -> ->. eauto.
Qed.

End PyFacts.

(** * Properties of [sanitize_message] *)

Module SanitizeFacts.

Import Gateway Notions.

Lemma lstrip_split s : ∃ pre, s = pre ++ lstrip s ∧ blank pre.
Proof.
  induction s as [|c s (pre & Hs & Hpre)]; simpl.
  - exists []. split; [done|constructor].
  - destruct (is_space c) eqn:Ec.
    + exists (c :: pre). split; [by rewrite <- app_comm_cons, <- Hs|by constructor].
    + exists []. split; [done|constructor].
Qed.

Lemma lstrip_head s c : head (lstrip s) = Some c → is_space c = false.
Proof.
  induction s as [|a s IH]; simpl; [done|].
  destruct (is_space a) eqn:Ea; [done|]. simpl. by intros [= <-].
Qed.

Lemma lstrip_blank s : lstrip s = [] ↔ blank s.
Proof.
  induction s as [|a s IH]; simpl; [by split; [constructor|]|].
  destruct (is_space a) eqn:Ea.
  - rewrite IH. split; [by constructor|]. by inversion 1.
  - split; [done|]. inversion 1; congruence.
Qed.

Lemma lstrip_fixed s : (∀ c, head s = Some c → is_space c = false) → lstrip s = s.
Proof. destruct s as [|a s]; simpl; [done|]. intros H. by rewrite (H a). Qed.

Lemma rstrip_reverse s : rstrip s = reverse (lstrip (reverse s)).
Proof. unfold rstrip, reverse. by rewrite !rev_alt. Qed.

Lemma blank_reverse s : blank (reverse s) ↔ blank s.
Proof. unfold blank. by rewrite Forall_reverse. Qed.

Lemma rstrip_split s : ∃ post, s = rstrip s ++ post ∧ blank post.
Proof.
  rewrite rstrip_reverse. destruct (lstrip_split (reverse s)) as (pre & Hs & Hb).
  exists (reverse pre). split; [|by apply blank_reverse].
  rewrite <- reverse_app, <- Hs. by rewrite reverse_involutive.
Qed.

Lemma rstrip_last s c : last (rstrip s) = Some c → is_space c = false.
Proof. rewrite rstrip_reverse, last_reverse. apply lstrip_head. Qed.

Lemma rstrip_blank s : rstrip s = [] ↔ blank s.
Proof.
  rewrite rstrip_reverse, <- blank_reverse, <- lstrip_blank. split.
  - intros H. apply (f_equal reverse) in H. by rewrite reverse_involutive in H.
  - by intros ->.
Qed.

Lemma rstrip_fixed s : (∀ c, last s = Some c → is_space c = false) → rstrip s = s.
Proof.
  intros H. rewrite rstrip_reverse, lstrip_fixed; [apply reverse_involutive|].
  intros c. rewrite head_reverse. apply H.
Qed.

(** [strip] removes a blank prefix and a blank suffix, and nothing else. *)
Lemma strip_split s : ∃ pre post, s = pre ++ strip s ++ post ∧ blank pre ∧ blank post.
Proof.
  unfold strip. destruct (lstrip_split s) as (pre & Hs & Hpre).
  destruct (rstrip_split (lstrip s)) as (post & Hl & Hpost).
  exists pre, post. split; [|done]. by rewrite <- Hl.
Qed.

Lemma strip_blank s : strip s = [] ↔ blank s.
Proof.
  unfold strip. rewrite rstrip_blank. split.
  - intros Hb. destruct (lstrip_split s) as (pre & Hs & Hpre). rewrite Hs.
    by apply Forall_app.
  - intros Hb. apply lstrip_blank in Hb as ->. constructor.
Qed.

Lemma strip_last s c : last (strip s) = Some c → is_space c = false.
Proof. apply rstrip_last. Qed.

Lemma strip_head s c : head (strip s) = Some c → is_space c = false.
Proof.
  unfold strip. destruct (rstrip_split (lstrip s)) as (post & Hl & _).
  intros Hc. apply (lstrip_head s c). rewrite Hl.
  destruct (rstrip (lstrip s)); [done|]. done.
Qed.

Lemma strip_strip s : strip (strip s) = strip s.
Proof.
  unfold strip at 1. rewrite (lstrip_fixed (strip s)) by apply strip_head.
  apply rstrip_fixed, strip_last.
Qed.

Lemma strip_length s : length (strip s) ≤ length s.
Proof.
  destruct (strip_split s) as (pre & post & Hs & _).
  rewrite Hs at 2. rewrite !length_app. lia.
Qed.

Lemma sanitize_message_take message :
  sanitize_message message = take 5000 (strip message).
Proof. destruct message; [|done]. by vm_compute. Qed.

Lemma sanitize_message_short message :
  length message ≤ 5000 → sanitize_message message = strip message.
Proof.
  intros Hm. rewrite sanitize_message_take. apply take_ge.
  pose proof (strip_length message). lia.
Qed.

Lemma sanitize_message_blank message :
  sanitize_message message = [] ↔ blank message.
Proof.
  rewrite sanitize_message_take, <- strip_blank. by destruct (strip message).
Qed.

(** X6. [sanitize_message] returns at most 5000 characters that do not
    begin with whitespace, and returns the empty string exactly for a
    message of whitespace only.  On a message of at most 5000 characters,
    all the schema lets through, it only removes the whitespace around the
    message: the result no longer ends with whitespace, and sanitizing it
    again changes nothing. *)
Theorem sanitize_message_trims message :
  length (sanitize_message message) ≤ 5000 ∧
  (∀ c, head (sanitize_message message) = Some c → is_space c = false) ∧
  (sanitize_message message = [] ↔ blank message) ∧
  (length message ≤ 5000 →
   (∃ pre post, message = pre ++ sanitize_message message ++ post
                ∧ blank pre ∧ blank post) ∧
   (∀ c, last (sanitize_message message) = Some c → is_space c = false) ∧
   sanitize_message (sanitize_message message) = sanitize_message message).
Proof.
  split; [|split; [|split]].
  - rewrite sanitize_message_take, length_take. lia.
  - intros c. rewrite sanitize_message_take. intros Hc.
    apply (strip_head message c). by destruct (strip message).
  - apply sanitize_message_blank.
  - intros Hlen. rewrite (sanitize_message_short _ Hlen).
    split; [apply strip_split|]. split; [apply strip_last|].
    rewrite sanitize_message_short; [apply strip_strip|].
    pose proof (strip_length message). lia.
Qed.

Lemma sanitize_message_trims_witness :
  ∃ pre post,
    u8 "  hi there " = pre ++ sanitize_message (u8 "  hi there ") ++ post
    ∧ blank pre ∧ blank post.
Proof.
  apply (proj2 (proj2 (proj2 (sanitize_message_trims (u8 "  hi there "))))).
  assert (Hlen : length (u8 "  hi there ") = 11) by (vm_compute; reflexivity).
  rewrite Hlen. lia.
Defined.

End SanitizeFacts.

(** * Properties of the chat gateway *)

Module GatewayFacts.

Import Limiter Gateway Notions PyFacts SanitizeFacts.
Local Open Scope Z_scope.


(** What a body that [ChatSchema] accepts looks like. *)
Lemma ChatSchema_load_Some to_float body data :
  ChatSchema_load to_float body = Some data →
  ∃ fields,
    body = JDict fields ∧
    only_keys [u8 "message"; u8 "model"; u8 "temperature"; u8 "stream"] fields = true ∧
    assoc (u8 "message") fields = Some (JStr (in_message data)) ∧
    (1 ≤ length (in_message data) ≤ 5000)%nat ∧
    (1 # 10 <= in_temperature data)%Q ∧ (in_temperature data <= 2)%Q ∧
    (assoc (u8 "model") fields = None ∧ in_model data = u8 "gemini-2.5-flash" ∨
     assoc (u8 "model") fields = Some (JStr (in_model data))).
Proof.
  unfold ChatSchema_load. destruct body as [| | | | | |fields]; try done.
  destruct (only_keys _ fields) eqn:Hk; [|done].
  destruct (assoc (u8 "message") fields) as [raw|] eqn:Hm; [|done].
  cbn [mbind option_bind].
  destruct raw as [| | | |m| |]; try done. cbn [String_field as_str mbind option_bind].
  assert (Hmodel : ∀ model,
            from_option String_field (Some (u8 "gemini-2.5-flash"))
                        (assoc (u8 "model") fields) = Some model →
            assoc (u8 "model") fields = None ∧ model = u8 "gemini-2.5-flash" ∨
            assoc (u8 "model") fields = Some (JStr model)).
  { intros model. destruct (assoc (u8 "model") fields) as [raw|]; cbn [from_option].
    - destruct raw; try done. cbn [String_field as_str]. intros [= ->]. by right.
    - intros [= <-]. by left. }
  destruct (from_option String_field _ _) as [model|]; [|done].
  specialize (Hmodel model eq_refl).
  cbn [mbind option_bind].
  destruct (from_option (Float_field to_float) _ _) as [t|]; [|done].
  cbn [mbind option_bind].
  destruct (from_option Boolean_field _ _) as [stream|]; [|done].
  cbn [mbind option_bind].
  destruct (Nat.leb_spec 1 (length m)); cbn [andb]; [|done].
  destruct (Nat.leb_spec (length m) 5000); cbn [andb]; [|done].
  destruct (Qle_bool (1 # 10) t) eqn:E1; cbn [andb]; [|done].
  destruct (Qle_bool t 2) eqn:E2; [|done].
  intros [= <-]. exists fields. cbn [in_message in_temperature in_model].
  apply Qle_bool_iff in E1, E2.
  split; [done|]. split; [done|]. split; [done|]. split; [lia|].
  split; [done|]. split; [done|]. exact Hmodel.
Qed.

Lemma ChatSchema_load_message to_float body data :
  ChatSchema_load to_float body = Some data →
  getitem (u8 "message") body = Some (JStr (in_message data)).
Proof.
  intros H. by apply ChatSchema_load_Some in H as (fields & -> & _ & H & _).
Qed.


(** The four ways [chat] goes on after validation. *)
Lemma chat_prepare_cases lower st uid data now :
  let r := (check (limiter st) uid now).1 in
  let st1 := {| limiter := (check (limiter st) uid now).2; db := db st |} in
  (allowed r = false ∧
   chat_prepare lower st uid data now = Replied (failure 429 (wait_message r)) st1) ∨
  (allowed r = true ∧ blank (in_message data) ∧
   chat_prepare lower st uid data now
     = Replied (failure 400 (u8 "الرسالة لا يمكن أن تكون فارغة")) st1) ∨
  (allowed r = true ∧ ¬ blank (in_message data) ∧
   select_user (db st) uid = None ∧
   chat_prepare lower st uid data now
     = Replied (failure 404 (u8 "المستخدم غير موجود")) st1) ∨
  (allowed r = true ∧ ¬ blank (in_message data) ∧
   ∃ profile p, select_user (db st) uid = Some profile ∧
                chat_prepare lower st uid data now = Ready p ∧
                p_limiter p = (check (limiter st) uid now).2).
Proof.
  intros r st1. subst r st1. unfold chat_prepare.
  destruct (check (limiter st) uid now) as [r l']. cbn [fst snd].
  destruct (allowed r); cbn [negb]; [|by left].
  right.
  pose proof (sanitize_message_blank (in_message data)) as Hb.
  destruct (sanitize_message (in_message data)) as [|c m] eqn:Hs.
  { left. split; [done|]. split; [by apply Hb|done]. }
  right.
  assert (Hnb : ¬ blank (in_message data)).
  { intros H. by apply Hb in H. }
  destruct (select_user (db st) uid) as [profile|] eqn:Hu.
  - right. split; [done|]. split; [done|]. eexists _, _. by repeat split.
  - left. by repeat split.
Qed.

Lemma chat_prepare_ready lower st uid data now p :
  chat_prepare lower st uid data now = Ready p →
  allowed (check (limiter st) uid now).1 = true ∧
  p_limiter p = (check (limiter st) uid now).2 ∧
  p_rate_limit p = (check (limiter st) uid now).1 ∧
  p_sanitized p = sanitize_message (in_message data) ∧
  p_sanitized p ≠ [] ∧
  p_is_emergency p = check_emergency_keywords lower (p_sanitized p) ∧
  ∃ profile,
    select_user (db st) uid = Some profile ∧
    p_messages p =
      build_messages profile (build_context (select_recent (db st) uid))
                     (p_sanitized p).
Proof.
  unfold chat_prepare.
  destruct (check (limiter st) uid now) as [rl l']. simpl.
  destruct (allowed rl); simpl; [|done].
  destruct (sanitize_message (in_message data)) as [|c m] eqn:Hs; [done|].
  destruct (select_user (db st) uid) as [profile|]; [|done].
  intros [= <-]. simpl. repeat split; try done. eauto.
Qed.

(** The two ways [chat] ends once it has reached the completion call:
    the [INSERT] raises, or the reply is sent and its row is stored. *)
Lemma chat_ready lower to_float cfg w st uid body data p :
  ChatSchema_load to_float body = Some data →
  chat_prepare lower st uid data (clock_check w) = Ready p →
  let text := (chat_complete cfg w p data).1 in
  let tokens := (chat_complete cfg w p data).2 in
  if has_nul (p_sanitized p) || has_nul text || has_nul (in_model data) then
    chat lower to_float cfg w st uid body
      = (failure 500 nul_error, {| limiter := p_limiter p; db := db st |})
  else
    chat lower to_float cfg w st uid body =
      ({| status := 200; success := true;
          payload := ChatReply
            {| d_response := text; d_message_id := uuid4 w;
               d_tokens_used := tokens; d_model := in_model data;
               d_timestamp := clock_save w;
               d_is_emergency := p_is_emergency p;
               d_remaining := remaining (p_rate_limit p);
               d_reset_after := Z.quot (resetAfter (p_rate_limit p)) 1000 |};
          headers := p_rate_headers p |},
       {| limiter := p_limiter p;
          db := {| users := users (db st);
                   ai_chat_messages :=
                     ai_chat_messages (db st)
                       ++ [ {| r_id := uuid4 w; r_user_id := uid;
                               r_message := p_sanitized p; r_response := text;
                               r_model := in_model data; r_tokens_used := tokens;
                               r_is_user := true;
                               r_created_at := clock_save w |} ] |} |}).
Proof.
  intros Hload Hp text tokens. subst text tokens.
  unfold chat. rewrite Hload, Hp.
  destruct (chat_complete cfg w p data) as [text tokens]. cbn [fst snd].
  unfold insert_chat_row. cbn [r_message r_response r_model].
  by destruct (has_nul (p_sanitized p) || has_nul text || has_nul (in_model data)).
Qed.

(** The reply of [chat] is a chat reply only on the path through the
    completion call. *)
Lemma chat_reply_inv lower to_float cfg w st uid body resp st' d :
  chat lower to_float cfg w st uid body = (resp, st') →
  payload resp = ChatReply d →
  ∃ data p,
    ChatSchema_load to_float body = Some data ∧
    chat_prepare lower st uid data (clock_check w) = Ready p ∧
    d_is_emergency d = p_is_emergency p.
Proof.
  intros Hchat Hd.
  destruct (ChatSchema_load to_float body) as [data|] eqn:Hload.
  2:{ unfold chat in Hchat. rewrite Hload in Hchat. injection Hchat as <- <-.
      discriminate Hd. }
  destruct (chat_prepare lower st uid data (clock_check w)) as [r s|p] eqn:Hp.
  - exfalso. unfold chat in Hchat. rewrite Hload, Hp in Hchat.
    injection Hchat as <- <-.
    destruct (chat_prepare_cases lower st uid data (clock_check w))
      as [(_ & H)|[(_ & _ & H)|[(_ & _ & _ & H)|(_ & _ & ? & ? & _ & H & _)]]];
      rewrite Hp in H; [injection H as -> _ ..|discriminate H]; discriminate Hd.
  - exists data, p. split; [done|]. split; [done|].
    pose proof (chat_ready lower to_float cfg w st uid body data p Hload Hp) as H.
    cbv zeta in H. rewrite Hchat in H.
    destruct (_ || _) in H; injection H as -> _; [discriminate Hd|].
    cbn [payload] in Hd. by injection Hd as <-.
Qed.

(** ** Texts that hold no U+0000 *)










(** C5. When the limiter rejects the request, [POST /chat] answers 429
    with the wait-time text, which names the whole minutes left, and no
    row is inserted: the database is left as it was. *)
Theorem rejected_request_leaves_store lower to_float cfg w st uid body data :
  ChatSchema_load to_float body = Some data →
  allowed (check (limiter st) uid (clock_check w)).1 = false →
  let rate_limit := (check (limiter st) uid (clock_check w)).1 in
  let '(resp, st') := chat lower to_float cfg w st uid body in
  status resp = 429 ∧
  success resp = false ∧
  payload resp =
    Failure (u8 "لقد تجاوزت الحد المسموح به من الطلبات. يرجى المحاولة بعد "
               ++ str_of_int (Z.quot (resetAfter rate_limit) 60000)
               ++ u8 " دقائق.") ∧
  db st' = db st ∧
  ai_chat_messages (db st') = ai_chat_messages (db st).
Proof.
  intros Hload Hrej. unfold chat, chat_prepare. rewrite Hload.
  destruct (check (limiter st) uid (clock_check w)) as [rl l'].
  simpl in *. rewrite Hrej. simpl. done.
Qed.

(** When the API key is set, [call_gemini_api] raises exactly when the
    HTTP call times out or fails, answers with a status other than 200,
    or answers 200 with a body that is not JSON or has no candidate text. *)
Lemma call_gemini_api_raises cfg post messages model temp :
  GEMINI_API_KEY cfg ≠ [] →
  let model' := match model with [] => GEMINI_MODEL cfg | _ :: _ => model end in
  let outcome :=
    post (api_url model' (GEMINI_API_KEY cfg))
         {| contents := format_contents messages; temperature := temp;
            maxOutputTokens := AI_MAX_TOKENS cfg |} in
  (∃ e, call_gemini_api cfg post messages model temp = inl e) ↔
  outcome = HttpTimeout ∨ outcome = HttpFailure ∨
  ∃ code body, outcome = HttpResponse code body ∧
    (code ≠ 200 ∨ body = None ∨ ∃ j, body = Some j ∧ candidate_text j = None).
Proof.
  intros Hkey model' outcome. unfold call_gemini_api.
  destruct (GEMINI_API_KEY cfg) as [|k0 key] eqn:Ek; [done|].
  fold model'. fold outcome.
  destruct outcome as [| |code body].
  - split; eauto.
  - split; eauto.
  - destruct (Z.eqb_spec code 200) as [->|Hne]; simpl.
    + destruct body as [j|].
      * destruct (candidate_text j) as [text|] eqn:Et.
        -- split; [by intros [e ?]|].
           intros [?|[?|(c & b & [= <- <-] & [?|[?|(j' & [= <-] & ?)]])]];
             congruence.
        -- split; [|eauto]. intros _. right; right. eauto 10.
      * split; [|eauto]. intros _. right; right. eauto 10.
    + split; [|eauto]. intros _. right; right. eauto 10.
Qed.



(** C7, as the code has it. When the completion call succeeds, the token
    count it reports is always the sum of the whitespace-delimited word
    counts of the prompt messages and of the completion text, which is
    the candidate text of the body; a usage report in the body is not
    read. *)
Theorem tokens_are_word_counts cfg post messages model temp r :
  call_gemini_api cfg post messages model temp = inr r →
  total_tokens r = count_input_tokens messages + split_len (response r) ∧
  input_tokens r = count_input_tokens messages ∧
  output_tokens r = split_len (response r) ∧
  ∃ url data result,
    post url data = HttpResponse 200 (Some result) ∧
    candidate_text result = Some (response r).
Proof.
  unfold call_gemini_api. destruct (GEMINI_API_KEY cfg); [done|].
  match goal with |- context [post ?u ?d] => destruct (post u d) as [| |code body] eqn:Ep end;
    try done.
  destruct (Z.eqb_spec code 200) as [->|]; simpl; [|done].
  destruct body as [j|]; [|done].
  destruct (candidate_text j) as [text|] eqn:Et; [|done].
  intros [= <-]. simpl. repeat split; try done. eauto.
Qed.



Lemma filter_none {A} (P : A → Prop) `{∀ x, Decision (P x)} (l : list A) :
  (∀ x, x ∈ l → ¬ P x) → filter P l = [].
Proof.
  induction l as [|a l IH]; intros Hl; [done|].
  rewrite filter_cons_False by (apply Hl; left).
  apply IH. intros x Hx. apply Hl. by right.
Qed.

Lemma filter_all {A} (P : A → Prop) `{∀ x, Decision (P x)} (l : list A) :
  (∀ x, x ∈ l → P x) → filter P l = l.
Proof.
  induction l as [|a l IH]; intros Hl; [done|].
  rewrite filter_cons_True by (apply Hl; left).
  f_equal. apply IH. intros x Hx. apply Hl. by right.
Qed.

(** What a body that [ClearHistorySchema] accepts looks like. *)
Lemma ClearHistorySchema_load_Some to_int body data :
  ClearHistorySchema_load to_int body = Some data →
  (in_confirm data = true ↔ confirmed body) ∧
  (getitem (u8 "confirm") body = None → in_confirm data = false) ∧
  (getitem (u8 "older_than_days") body = None → in_older_than_days data = None) ∧
  (∀ d, in_older_than_days data = Some d →
        1 ≤ d ≤ 365 ∧
        ∃ raw, getitem (u8 "older_than_days") body = Some raw ∧
               Integer_field to_int raw = Some d).
Proof.
  unfold ClearHistorySchema_load, confirmed.
  destruct body as [| | | | | |fields]; try done. cbn [getitem].
  destruct (only_keys _ fields); [|done].
  match goal with
  | |- context [mbind _ ?e] =>
    lazymatch e with
    | from_option _ _ _ => fail
    | _ => set (older := e)
    end
  end.
  assert (Holder : ∀ o, older = Some o →
            (assoc (u8 "older_than_days") fields = None → o = None) ∧
            ∀ d, o = Some d →
                 1 ≤ d ≤ 365 ∧
                 ∃ raw, assoc (u8 "older_than_days") fields = Some raw ∧
                        Integer_field to_int raw = Some d).
  { subst older. intros o.
    destruct (assoc (u8 "older_than_days") fields) as [raw|];
      [|intros [= <-]; by split].
    assert (Hint :
      (d ← Integer_field to_int raw;
       if (1 <=? d) && (d <=? 365) then Some (Some d) else None) = Some o →
      (Some raw = None → o = None) ∧
      ∀ d, o = Some d →
           1 ≤ d ≤ 365 ∧ ∃ raw', Some raw = Some raw' ∧
                                 Integer_field to_int raw' = Some d).
    { destruct (Integer_field to_int raw) as [n|] eqn:Ei; [|done].
      cbn [mbind option_bind].
      destruct (Z.leb_spec 1 n); cbn [andb]; [|done].
      destruct (Z.leb_spec n 365); [|done].
      intros [= <-]. split; [done|]. intros d [= <-]. split; [lia|eauto]. }
    destruct raw; try exact Hint.
    intros [= <-]. split; [done|]. intros d Hd. discriminate Hd. }
  clearbody older.
  destruct (assoc (u8 "confirm") fields) as [c|] eqn:Hc; cbn [from_option].
  - destruct (Boolean_field c) as [confirm|] eqn:Hb; [|done]. cbn [mbind option_bind].
    destruct older as [o|]; [|done]. cbn [mbind option_bind].
    intros [= <-]. cbn [in_confirm in_older_than_days].
    destruct (Holder o eq_refl) as [Hnone Hsome].
    split; [|split; [intros E; discriminate E|split; [exact Hnone|exact Hsome]]].
    split; [intros ->; eauto|]. intros (v & [= <-] & Hv). congruence.
  - cbn [mbind option_bind].
    destruct older as [o|]; [|done]. cbn [mbind option_bind].
    intros [= <-]. cbn [in_confirm in_older_than_days].
    destruct (Holder o eq_refl) as [Hnone Hsome].
    split; [|split; [done|split; [exact Hnone|exact Hsome]]].
    split; [done|]. intros (v & Hv & _). discriminate Hv.
Qed.

(** C8, as the code has it. A clear request that the schema accepts with
    [confirm] read as true and [older_than_days] read as [d], which lies
    between 1 and 365, deletes exactly the user's rows created before
    [now - d] days and reports their number; rows not older than the
    cutoff and rows of other users all stay; when none of the user's rows
    is older, the count is 0 and the table is unchanged.  A request whose
    [confirm] is absent or is not read as true deletes nothing: it is
    refused with 400 when the schema accepts the body and with 500 when
    it does not. *)
Theorem confirmed_clear_deletes_old_rows to_int st uid body now :
  let resp := (clear_history to_int st uid body now).1 in
  let st' := (clear_history to_int st uid body now).2 in
  let table := ai_chat_messages (db st) in
  (∀ d,
     ClearHistorySchema_load to_int body
       = Some {| in_confirm := true; in_older_than_days := Some d |} →
     let cutoff := now - days d in
     let old := fun r => r_user_id r = uid ∧ r_created_at r < cutoff in
     confirmed body ∧ 1 ≤ d ≤ 365 ∧
     status resp = 200 ∧ success resp = true ∧
     (∃ message,
        payload resp = Cleared message (Z.of_nat (length (filter old table)))) ∧
     ai_chat_messages (db st') = filter (fun r => ¬ old r) table ∧
     users (db st') = users (db st) ∧
     limiter st' = limiter st ∧
     (∀ r, r ∈ table →
        r_user_id r ≠ uid ∨ cutoff ≤ r_created_at r →
        r ∈ ai_chat_messages (db st')) ∧
     ((∀ r, r ∈ table → r_user_id r = uid → cutoff ≤ r_created_at r) →
      (∃ message, payload resp = Cleared message 0) ∧
      ai_chat_messages (db st') = table)) ∧
  (¬ confirmed body →
   st' = st ∧ success resp = false ∧
   status resp = match ClearHistorySchema_load to_int body with
                 | Some _ => 400
                 | None => 500
                 end).
Proof.
  intros resp st' table. subst resp st'. split.
  - intros d Hload cutoff old.
    destruct (ClearHistorySchema_load_Some to_int body _ Hload) as (Hc & _ & _ & Hd).
    destruct (Hd d eq_refl) as [Hrange _].
    split; [by apply Hc|]. split; [done|].
    assert (Hget : get_int (Some d) = Some d).
    { unfold get_int. destruct (Z.eqb_spec d 0); [lia|done]. }
    assert (Hold : ∀ r, doomed uid (Some d) now r ↔ old r).
    { intros r. unfold doomed. by rewrite Hget. }
    unfold clear_history. rewrite Hload.
    cbn [in_confirm in_older_than_days negb fst snd]. fold table.
    rewrite (list_filter_iff _ old) by done.
    rewrite (list_filter_iff (fun r => ¬ doomed uid (Some d) now r) (fun r => ¬ old r))
      by (intros r; by rewrite Hold).
    rewrite Hget. cbn [status success payload db ai_chat_messages users limiter].
    split; [done|]. split; [done|]. split; [eauto|]. split; [done|].
    split; [done|]. split; [done|]. split.
    + intros r Hr Hkeep. apply list_elem_of_filter. split; [|done].
      unfold old. intros [? ?]. destruct Hkeep; [done|lia].
    + intros Hnone.
      rewrite (filter_none old table), (filter_all (fun r => ¬ old r) table).
      * split; [eauto|done].
      * intros r Hr [Hu Ht]. specialize (Hnone r Hr Hu). lia.
      * intros r Hr [Hu Ht]. specialize (Hnone r Hr Hu). lia.
  - intros Hno. unfold clear_history.
    destruct (ClearHistorySchema_load to_int body) as [data|] eqn:Hload;
      [|by cbn [fst snd failure status success]].
    destruct (ClearHistorySchema_load_Some to_int body _ Hload) as (Hc & _).
    destruct (in_confirm data); [by destruct Hno; apply Hc|].
    by cbn [negb fst snd failure status success].
Qed.

(** ** The message list of [chat] *)

#[global] Instance newer_first_total : Total newer_first.
Proof. intros a b. unfold newer_first. lia. Qed.

#[global] Instance newer_first_trans : Transitive newer_first.
Proof. intros a b c. unfold newer_first. lia. Qed.

Lemma select_recent_length d uid : (length (select_recent d uid) ≤ 6)%nat.
Proof. unfold select_recent. rewrite length_take. lia. Qed.

Lemma select_recent_sorted d uid : StronglySorted newer_first (select_recent d uid).
Proof.
  unfold select_recent.
  set (l := merge_sort _ _).
  assert (Hl : StronglySorted newer_first l).
  { apply StronglySorted_merge_sort; apply _. }
  rewrite <- (take_drop 6 l) in Hl. by apply StronglySorted_app_1_l in Hl.
Qed.

(** The context is read oldest first. *)
Lemma select_recent_chronological d uid :
  Sorted (fun a b => r_created_at a ≤ r_created_at b) (reverse (select_recent d uid)).
Proof.
  apply (Sorted_reverse newer_first), StronglySorted_Sorted, select_recent_sorted.
Qed.

(** The rows selected are the user's, and no row of the user left out is
    newer than a selected one. *)
Lemma select_recent_most_recent d uid r :
  r ∈ select_recent d uid →
  r ∈ ai_chat_messages d ∧ r_user_id r = uid ∧
  ∀ r', r' ∈ ai_chat_messages d → r_user_id r' = uid →
        r' ∉ select_recent d uid → r_created_at r' ≤ r_created_at r.
Proof.
  unfold select_recent. set (l := merge_sort _ _). intros Hr.
  assert (Hl : StronglySorted newer_first l).
  { apply StronglySorted_merge_sort; apply _. }
  assert (Hperm : l ≡ₚ filter (fun r => r_user_id r = uid) (ai_chat_messages d))
    by apply merge_sort_Permutation.
  assert (Hin : r ∈ l) by (by apply (subseteq_take 6)).
  rewrite Hperm in Hin. apply list_elem_of_filter in Hin as [Hu Hin].
  split; [done|]. split; [done|]. intros r' Hr' Hu' Hout.
  assert (Hin' : r' ∈ l). { rewrite Hperm. by apply list_elem_of_filter. }
  rewrite <- (take_drop 6 l) in Hin', Hl.
  apply elem_of_app in Hin' as [Hin'|Hin']; [done|].
  apply (StronglySorted_app_1_elem_of _ _ _ _ _ Hl Hr Hin').
Qed.

(** The selection does not depend on the order in which the table holds
    its rows, as long as the user's rows have distinct dates. *)
Lemma select_recent_storage_order d1 d2 uid :
  ai_chat_messages d1 ≡ₚ ai_chat_messages d2 →
  (∀ r1 r2, r1 ∈ ai_chat_messages d1 → r2 ∈ ai_chat_messages d1 →
            r_user_id r1 = uid → r_user_id r2 = uid →
            r_created_at r1 = r_created_at r2 → r1 = r2) →
  select_recent d1 uid = select_recent d2 uid.
Proof.
  intros Hperm Hdistinct. unfold select_recent. f_equal.
  set (P := fun r => r_user_id r = uid).
  assert (H1 : merge_sort newer_first (filter P (ai_chat_messages d1))
               ≡ₚ filter P (ai_chat_messages d1)) by apply merge_sort_Permutation.
  assert (H2 : merge_sort newer_first (filter P (ai_chat_messages d2))
               ≡ₚ filter P (ai_chat_messages d1)).
  { rewrite merge_sort_Permutation. by rewrite Hperm. }
  apply (StronglySorted_unique_strong newer_first).
  - intros x1 x2 Hx1 Hx2 Hle1 Hle2.
    rewrite H1 in Hx1. rewrite H2 in Hx2.
    apply list_elem_of_filter in Hx1 as [Hu1 Hx1].
    apply list_elem_of_filter in Hx2 as [Hu2 Hx2].
    apply Hdistinct; try done. unfold newer_first in *. lia.
  - apply StronglySorted_merge_sort; apply _.
  - apply StronglySorted_merge_sort; apply _.
  - by rewrite H1, H2.
Qed.

Lemma build_context_length rows : length (build_context rows) = (2 * length rows)%nat.
Proof.
  unfold build_context. rewrite <- (length_reverse rows).
  induction (reverse rows) as [|r l IH]; [done|]. simpl. rewrite IH. lia.
Qed.

Lemma build_context_roles rows :
  Forall (fun m => role_of m ≠ System) (build_context rows).
Proof.
  unfold build_context. induction (reverse rows) as [|r l IH]; simpl; [done|].
  by repeat constructor.
Qed.

Lemma history_build_messages profile context m :
  history (build_messages profile context m) = context.
Proof. unfold history, build_messages. simpl. apply removelast_last. Qed.

(** The list handed to the completion call: one system message first,
    the stored turns oldest first, each as a user and an assistant message,
    and the new user message last.  Up to six rows are read, so the
    history holds up to twelve messages. *)
Lemma chat_messages_shape lower st uid data now p :
  chat_prepare lower st uid data now = Ready p →
  ∃ profile,
    select_user (db st) uid = Some profile ∧
    p_messages p =
      {| role_of := System; content := create_system_prompt (Some profile) |}
        :: history (p_messages p)
        ++ [ {| role_of := User; content := sanitize_message (in_message data) |} ] ∧
    history (p_messages p) = build_context (select_recent (db st) uid) ∧
    Forall (fun m => role_of m ≠ System) (history (p_messages p)) ∧
    length (history (p_messages p)) = (2 * length (select_recent (db st) uid))%nat ∧
    (length (history (p_messages p)) ≤ 12)%nat.
Proof.
  intros Hp. apply chat_prepare_ready in Hp as (_ & _ & _ & Hs & _ & _ & profile & Hu & Hm).
  exists profile. split; [done|].
  rewrite Hm, history_build_messages, <- Hs. split; [done|]. split; [done|].
  split; [apply build_context_roles|].
  rewrite build_context_length. split; [done|].
  pose proof (select_recent_length (db st) uid). lia.
Qed.

(** C1, where the code departs from it. For a user with six stored turns
    the list handed to the completion call has fourteen entries: the
    system message, twelve history messages (six user/assistant pairs,
    oldest first, whatever the storage order) and the new message; the
    history is not bounded by six messages. *)
Theorem six_stored_turns_give_twelve_history_messages :
  ∃ p,
    chat_prepare ascii_lower Samples.sample_state Samples.alice
      Samples.hello_input (days 40) = Ready p ∧
    List.map role_of (p_messages p) =
      [System; User; Assistant; User; Assistant; User; Assistant;
       User; Assistant; User; Assistant; User; Assistant; User] ∧
    List.map content (history (p_messages p)) =
      [u8 "q1"; u8 "a1"; u8 "q2"; u8 "a2"; u8 "q3"; u8 "a3";
       u8 "q4"; u8 "a4"; u8 "q5"; u8 "a5"; u8 "q6"; u8 "a6"] ∧
    length (history (p_messages p)) = 12%nat ∧
    ¬ (length (history (p_messages p)) ≤ 6)%nat.
Proof.
  eexists. split; [vm_compute; reflexivity|].
  split; [vm_compute; reflexivity|].
  split; [vm_compute; reflexivity|].
  split; [vm_compute; reflexivity|].
  vm_compute. intros H. repeat (apply le_S_n in H). inversion H.
Qed.

(** ** The theorems at work on the sample data *)

Import Samples.


Lemma rejected_request_leaves_store_witness :
  status (chat ascii_lower ascii_float sample_config offline exhausted_state alice
               (ask (u8 "hello"))).1 = 429 ∧
  db (chat ascii_lower ascii_float sample_config offline exhausted_state alice
           (ask (u8 "hello"))).2 = db exhausted_state.
Proof.
  assert (Hload : ChatSchema_load ascii_float (ask (u8 "hello")) = Some hello_input)
    by (vm_compute; reflexivity).
  assert (Hrej : allowed (check (limiter exhausted_state) alice
                                (clock_check offline)).1 = false)
    by (vm_compute; reflexivity).
  pose proof (rejected_request_leaves_store ascii_lower ascii_float sample_config
                offline exhausted_state alice (ask (u8 "hello")) hello_input
                Hload Hrej) as H.
  cbv zeta in H.
  destruct (chat ascii_lower ascii_float sample_config offline exhausted_state alice
                 (ask (u8 "hello"))) as [resp st'].
  destruct H as (Hs & _ & _ & Hdb & _). split; [exact Hs | exact Hdb].
Defined.



Lemma tokens_are_word_counts_witness :
  ∃ r,
    call_gemini_api sample_config (http_post online) one_question [] (7 # 10)%Q
      = inr r ∧
    total_tokens r = count_input_tokens one_question + split_len (response r).
Proof.
  destruct (call_gemini_api sample_config (http_post online) one_question []
              (7 # 10)%Q) as [e|r] eqn:Hcall;
    [vm_compute in Hcall; discriminate Hcall|].
  exists r. split; [reflexivity|].
  exact (proj1 (tokens_are_word_counts sample_config (http_post online)
                  one_question [] (7 # 10)%Q r Hcall)).
Defined.

(** C7 fails as stated: the sample answer carries a usage report of 100
    tokens, and the count returned is the six words of prompt and answer. *)
Lemma usage_report_is_not_read :
  ∃ r,
    call_gemini_api sample_config (http_post online) one_question [] (7 # 10)%Q
      = inr r ∧
    usage_report answer_with_usage = Some 100 ∧
    total_tokens r = 6 ∧
    total_tokens r ≠ reported_or_estimated answer_with_usage one_question (response r).
Proof.
  eexists. split; [vm_compute; reflexivity|].
  split; [vm_compute; reflexivity|].
  split; [vm_compute; reflexivity|].
  vm_compute. discriminate.
Qed.

Lemma confirmed_clear_deletes_old_rows_witness :
  let body := MoreSamples.clear_older (JStr (u8 "yes")) 36 in
  let run := clear_history ascii_int sample_state alice body (days 40) in
  status run.1 = 200 ∧
  ai_chat_messages (db run.2) =
    filter (fun r => ¬ (r_user_id r = alice ∧ r_created_at r < days 40 - days 36))
           (ai_chat_messages (db sample_state)).
Proof.
  intros body run.
  pose proof (proj1 (confirmed_clear_deletes_old_rows ascii_int sample_state alice
                       body (days 40)) 36) as H.
  cbv zeta in H. fold run in H.
  destruct H as (_ & _ & Hs & _ & _ & Hrows & _); [vm_compute; reflexivity|].
  split; [exact Hs | exact Hrows].
Defined.

(** C8 fails as stated: a request with [older_than_days = 30] that does
    not confirm is refused with 400, and alice's rows, all older than the
    cutoff, stay. *)
Lemma unconfirmed_clear_deletes_nothing :
  let body := JDict [ (u8 "older_than_days", JInt 30) ] in
  let run := clear_history ascii_int sample_state alice body (days 40) in
  status run.1 = 400 ∧ success run.1 = false ∧
  run.2 = sample_state ∧
  ∃ row,
    row ∈ ai_chat_messages (db run.2) ∧
    r_user_id row = alice ∧ r_created_at row < days 40 - days 30.
Proof.
  intros body run. split; [vm_compute; reflexivity|].
  split; [vm_compute; reflexivity|].
  assert (Hrun : run.2 = sample_state).
  { subst run. unfold clear_history.
    assert (Hload : ClearHistorySchema_load ascii_int body
              = Some {| in_confirm := false; in_older_than_days := Some 30 |})
      by (vm_compute; reflexivity).
    rewrite Hload. reflexivity. }
  split; [exact Hrun|]. rewrite Hrun.
  exists (turn (u8 "m-3") alice (u8 "q3") (u8 "a3") 3).
  split; [left|]. split; [reflexivity|]. vm_compute. reflexivity.
Qed.

End GatewayFacts.

(** * [check] with and without interleaving *)

Module ThreadsFacts.

Import Limiter Threads.
Local Open Scope Z_scope.

Lemma limiter_of_lookup σ k :
  requests (limiter_of σ) !! k = table σ !! k ≫= fun ud => heap σ !! ud.
Proof. unfold limiter_of. simpl. apply lookup_omap. Qed.

(** Writing through a reference changes the entry of its one key. *)
Lemma limiter_of_write σ key ud w :
  well_formed σ →
  table σ !! key = Some ud →
  limiter_of (set_heap σ (<[ud := w]> (heap σ))) =
    with_requests (limiter_of σ) (<[key := w]> (requests (limiter_of σ))).
Proof.
  intros [Hvalid Hinj] Hkey. unfold limiter_of, with_requests. simpl. f_equal.
  apply map_eq. intros k. rewrite lookup_omap.
  destruct (decide (k = key)) as [->|Hne].
  - rewrite lookup_insert_eq, Hkey. simpl.
    apply list_lookup_insert_eq. eauto.
  - rewrite lookup_insert_ne by done. rewrite lookup_omap.
    destruct (table σ !! k) as [ud'|] eqn:Ek; simpl; [|done].
    apply list_lookup_insert_ne. intros <-. apply Hne. eauto.
Qed.

Lemma well_formed_write σ ud w :
  well_formed σ → well_formed (set_heap σ (<[ud := w]> (heap σ))).
Proof.
  intros [Hvalid Hinj]. split; simpl; [|done].
  intros k ud' Hk. rewrite length_insert. eauto.
Qed.

(** Storing a new dict under a key. *)
Lemma limiter_of_create σ key w :
  well_formed σ →
  limiter_of {| table := <[key := length (heap σ)]> (table σ);
                heap := heap σ ++ [w];
                s_limit := s_limit σ;
                s_window_minutes := s_window_minutes σ |} =
    with_requests (limiter_of σ) (<[key := w]> (requests (limiter_of σ))).
Proof.
  intros [Hvalid Hinj]. unfold limiter_of, with_requests. simpl. f_equal.
  apply map_eq. intros k. rewrite lookup_omap.
  destruct (decide (k = key)) as [->|Hne].
  - rewrite !lookup_insert_eq. simpl. by apply list_lookup_middle.
  - rewrite !lookup_insert_ne by done. rewrite lookup_omap.
    destruct (table σ !! k) as [ud'|] eqn:Ek; simpl; [|done].
    apply lookup_app_l. eauto.
Qed.

Lemma well_formed_create σ key w :
  well_formed σ →
  table σ !! key = None →
  well_formed {| table := <[key := length (heap σ)]> (table σ);
                 heap := heap σ ++ [w];
                 s_limit := s_limit σ;
                 s_window_minutes := s_window_minutes σ |}.
Proof.
  intros [Hvalid Hinj] Hnone. split; simpl.
  - intros k ud. rewrite length_app. simpl.
    destruct (decide (k = key)) as [->|Hne].
    + rewrite lookup_insert_eq. intros [= <-]. lia.
    + rewrite lookup_insert_ne by done. intros Hk. apply Hvalid in Hk. lia.
  - intros k1 k2 ud.
    destruct (decide (k1 = key)) as [->|H1], (decide (k2 = key)) as [->|H2];
      rewrite ?lookup_insert_eq, ?lookup_insert_ne by done; try done.
    + intros [= <-] Hk. apply Hvalid in Hk. lia.
    + intros Hk [= <-]. apply Hvalid in Hk. lia.
    + apply Hinj.
Qed.

Lemma well_formed_empty : well_formed empty_store.
Proof. split; intros *; simpl; by rewrite lookup_empty. Qed.

Lemma set_heap_twice σ h1 h2 : set_heap (set_heap σ h1) h2 = set_heap σ h2.
Proof. done. Qed.

Lemma span_set_heap σ h : span (set_heap σ h) = span σ.
Proof. done. Qed.

Lemma fresh_result_set_heap σ h : fresh_result (set_heap σ h) = fresh_result σ.
Proof. done. Qed.

Lemma finish_S fuel σ t :
  finish (S fuel) σ t =
    match t_pc t with
    | Done r => Some (r, σ)
    | _ => '(σ', t') ← step σ t; finish fuel σ' t'
    end.
Proof. by destruct t as [? ? []]. Qed.

#[local] Arguments finish : simpl never.

(** One statement of a call that runs alone. *)
Ltac statement :=
  simpl;
  lazymatch goal with
  | |- finish (S ?n) ?s ?t = _ => rewrite (finish_S n s t); unfold step; simpl
  end.

(** C9, as the code has it. A call of [check] that no other thread
    interrupts has exactly the effect and the result of the sequential
    [check]: run one after the other, calls lose no increment. *)
Theorem uninterrupted_call_is_check σ u now :
  well_formed σ →
  ∃ r σ',
    call σ u now = Some (r, σ') ∧
    check (limiter_of σ) u now = (r, limiter_of σ') ∧
    well_formed σ'.
Proof.
  intros Hwf. unfold check. rewrite limiter_of_lookup.
  change (window_span (limiter_of σ)) with (span σ).
  change (limit (limiter_of σ)) with (s_limit σ).
  destruct (table σ !! key_of u) as [ud|] eqn:Ek; simpl.
  - destruct (lookup_lt_is_Some_2 (heap σ) ud) as [w Hw].
    { destruct Hwf as [Hvalid _]. eauto. }
    assert (Hud : (ud < length (heap σ))%nat).
    { apply lookup_lt_is_Some. eauto. }
    rewrite Hw.
    destruct (now >? window_start w + span σ) eqn:Egt;
      [|destruct (count w >=? s_limit σ) eqn:Ege];
      eexists _, _; (split; [unfold call, start|]).
    + statement. rewrite Ek.
      statement. rewrite Ek. simpl.
      statement. rewrite Hw. simpl.
      statement. rewrite Egt.
      statement. rewrite Hw. simpl.
      statement. rewrite list_lookup_insert_eq by done. simpl.
      statement. rewrite list_lookup_insert_eq by (by rewrite length_insert). simpl.
      rewrite !list_insert_insert_eq. reflexivity.
    + rewrite ?set_heap_twice, ?span_set_heap, ?fresh_result_set_heap. split.
      * by rewrite (limiter_of_write σ (key_of u) ud).
      * by apply (well_formed_write σ).
    + statement. rewrite Ek.
      statement. rewrite Ek. simpl.
      statement. rewrite Hw. simpl.
      statement. rewrite Egt.
      statement. rewrite Hw. simpl. rewrite Ege.
      statement. rewrite Hw. simpl. reflexivity.
    + done.
    + statement. rewrite Ek.
      statement. rewrite Ek. simpl.
      statement. rewrite Hw. simpl.
      statement. rewrite Egt.
      statement. rewrite Hw. simpl. rewrite Ege.
      statement. rewrite Hw. simpl.
      statement. rewrite list_lookup_insert_eq by done. simpl. reflexivity.
    + rewrite ?set_heap_twice, ?span_set_heap, ?fresh_result_set_heap. split.
      * by rewrite (limiter_of_write σ (key_of u) ud).
      * by apply (well_formed_write σ).
  - eexists _, _. split; [unfold call, start|].
    + statement. rewrite Ek.
      statement. reflexivity.
    + split.
      * by rewrite limiter_of_create.
      * by apply well_formed_create.
Qed.

Lemma uninterrupted_call_is_check_witness :
  ∃ r σ',
    call empty_store Samples.alice 0 = Some (r, σ') ∧
    check (limiter_of empty_store) Samples.alice 0 = (r, limiter_of σ') ∧
    well_formed σ'.
Proof.
  apply (uninterrupted_call_is_check empty_store Samples.alice 0).
  split; intros *; simpl; rewrite lookup_empty; discriminate.
Defined.

(** C9 fails as stated: the limiter takes no lock. Two first calls of one
    user, each past its membership test before the other stores the new
    window, are both admitted with [remaining = 59] and leave a stored
    count of 1; in either serial order the second call has
    [remaining = 58] and the count is 2. *)
Lemma concurrent_first_calls_lose_an_increment :
  let u := Samples.alice in
  let first := {| allowed := true; remaining := 59; resetAfter := 900000 |} in
  (∃ σ',
     run_schedule empty_store [start u 0; start u 1] [0; 1; 0; 1]%nat
       = Some (σ', [goto (start u 0) (Done first); goto (start u 1) (Done first)]) ∧
     requests (limiter_of σ') !! key_of u
       = Some {| count := 1; window_start := 1; reset_time := 1 + 900000000 |} ∧
     ∃ r1 r2 l, serial empty_store u 0 1 = Some (r1, r2, l) ∧
                remaining r2 = 58 ∧
                requests l !! key_of u
                  = Some {| count := 2; window_start := 0; reset_time := 900000000 |}) ∧
  ¬ atomic_per_user.
Proof.
  intros u first.
  destruct (run_schedule empty_store [start u 0; start u 1] [0; 1; 0; 1]%nat)
    as [[σ' pool]|] eqn:Hrun; [|vm_compute in Hrun; discriminate Hrun].
  assert (Hpool : pool = [goto (start u 0) (Done first); goto (start u 1) (Done first)]).
  { assert (H : (snd <$> run_schedule empty_store [start u 0; start u 1]
                                    [0; 1; 0; 1]%nat)
                = Some [goto (start u 0) (Done first); goto (start u 1) (Done first)])
      by (vm_compute; reflexivity).
    rewrite Hrun in H. by injection H. }
  subst pool.
  assert (Hcount : requests (limiter_of σ') !! key_of u
            = Some {| count := 1; window_start := 1; reset_time := 1 + 900000000 |}).
  { assert (H : (run_schedule empty_store [start u 0; start u 1] [0; 1; 0; 1]%nat
                   ≫= fun p => requests (limiter_of p.1) !! key_of u)
                = Some {| count := 1; window_start := 1; reset_time := 1 + 900000000 |})
      by (vm_compute; reflexivity).
    by rewrite Hrun in H. }
  assert (Hserial : ∀ tA tB, (tA = 0 ∧ tB = 1) ∨ (tA = 1 ∧ tB = 0) →
            ∃ r1 r2 l, serial empty_store u tA tB = Some (r1, r2, l) ∧
                       remaining r2 = 58).
  { intros tA tB [[-> ->]|[-> ->]]; eexists _, _, _;
      (split; [vm_compute; reflexivity|reflexivity]). }
  split.
  - exists σ'. split; [reflexivity|]. split; [exact Hcount|].
    eexists _, _, _. split; [vm_compute; reflexivity|].
    split; [reflexivity|]. vm_compute. reflexivity.
  - intros Hatomic.
    destruct (Hatomic empty_store u 0 1 [0; 1; 0; 1]%nat σ' first first
                well_formed_empty Hrun) as [H|H].
    + destruct (Hserial 0 1) as (r1 & r2 & l & Hs & Hr); [by left|].
      rewrite Hs in H. injection H as _ -> _. discriminate Hr.
    + destruct (Hserial 1 0) as (r1 & r2 & l & Hs & Hr); [by right|].
      rewrite Hs in H. injection H as _ -> _. discriminate Hr.
Qed.

End ThreadsFacts.

(** * Further properties of the rate limiter *)

Module LimiterMore.

Import Limiter Notions LimiterFacts.
Local Open Scope Z_scope.

Lemma agree_refl u a : agree u a a.
Proof. by repeat split. Qed.

Lemma check_agree u a b t :
  agree u a b →
  (check a u t).1 = (check b u t).1 ∧ agree u (check a u t).2 (check b u t).2.
Proof.
  intros (Hw & HL & HM). unfold agree, check, window_span. rewrite Hw, HL, HM.
  destruct (requests b !! key_of u) as [w|] eqn:E;
    [destruct (t >? _); [|destruct (count w >=? limit b)]|];
    simpl; rewrite ?lookup_insert_eq; repeat split; congruence.
Qed.

Lemma check_other_agree u v a b t :
  u ≠ v → agree u a b → agree u (check a v t).2 b.
Proof.
  intros Huv (Hw & HL & HM). split; [|split].
  - by rewrite check_other_user.
  - by rewrite check_limit.
  - by rewrite check_window_minutes.
Qed.

Lemma calls_of_cons u v t rest :
  calls_of u ((v, t) :: rest) =
    if decide (v = u) then (v, t) :: calls_of u rest else calls_of u rest.
Proof. unfold calls_of. rewrite filter_cons. simpl. by repeat case_decide. Qed.

Lemma run_agree u calls : ∀ a b,
  agree u a b →
  results_of u (run a calls).1 = List.map snd (run b (calls_of u calls)).1 ∧
  agree u (run a calls).2 (run b (calls_of u calls)).2.
Proof.
  induction calls as [|[v t] rest IH]; intros a b Hab.
  { by split. }
  rewrite run_cons, calls_of_cons. simpl. rewrite results_of_cons.
  case_decide as Hv.
  - subst v. rewrite run_cons. simpl.
    destruct (check_agree u a b t Hab) as [Hr Hab'].
    destruct (IH _ _ Hab') as [IH1 IH2]. by rewrite Hr, IH1.
  - apply IH. apply check_other_agree; [congruence|done].
Qed.

(** X1. What the limiter answers to a user, and the window it keeps for
    that user, depend on that user's own calls only: dropping every other
    user's call from the sequence changes neither. *)
Theorem other_users_do_not_matter self u calls :
  results_of u (run self calls).1 = List.map snd (run self (calls_of u calls)).1 ∧
  requests (run self calls).2 !! key_of u
    = requests (run self (calls_of u calls)).2 !! key_of u.
Proof.
  destruct (run_agree u calls self self (agree_refl u self)) as [Hr (Hw & _)].
  by split.
Qed.

(** X2. After every call, admitted or not, the caller has a stored window,
    and the rate-limit headers agree with the answer of [check]: the
    limit is 60 and [X-RateLimit-Remaining] is the [remaining] just
    returned, which is 60 less the stored count and lies between 0 and
    59; [X-RateLimit-Reset] is the whole seconds of the float kept as the
    reset time of that window, fifteen minutes after its start. *)
Theorem headers_agree_with_check self u now :
  reachable self →
  let r := (check self u now).1 in
  let self' := (check self u now).2 in
  ∃ w,
    requests self' !! key_of u = Some w ∧
    get_headers self' u
      = Some (60, remaining r, int_of_float (reset_float 15 (reset_time w))) ∧
    remaining r = 60 - count w ∧
    0 ≤ remaining r ≤ 59 ∧
    reset_time w = window_start w + 900000000.
Proof.
  intros Hr. destruct (reachable_sound _ Hr) as (HL & HW & Hall).
  unfold get_headers, check, window_span. rewrite HL, HW.
  destruct (requests self !! key_of u) as [w|] eqn:E; simpl.
  - destruct (Hall _ _ E) as [Hc Hrt].
    destruct (now >? _); simpl.
    + rewrite lookup_insert_eq, HL, HW. eexists. split; [reflexivity|]. simpl.
      repeat split; lia.
    + destruct (Z.geb_spec (count w) 60); simpl.
      * rewrite E, HL, HW. exists w. split; [done|].
        split; [do 3 f_equal; lia|]. repeat split; lia.
      * rewrite lookup_insert_eq, HL, HW. eexists. split; [reflexivity|]. simpl.
        repeat split; lia.
  - rewrite lookup_insert_eq, HL, HW. eexists. split; [reflexivity|]. simpl.
    repeat split; lia.
Qed.







(** ** The properties at work on sample calls *)

Lemma headers_agree_with_check_witness :
  get_headers (check MoreSamples.full_limiter Samples.alice 6).2 Samples.alice
    = Some (60, 0, 900).
Proof.
  destruct (headers_agree_with_check MoreSamples.full_limiter Samples.alice 6)
    as (w & Hw & Hh & _).
  { apply run_reachable. constructor. }
  assert (Hw' : requests (check MoreSamples.full_limiter Samples.alice 6).2
                  !! key_of Samples.alice
                = Some {| count := 60; window_start := 5; reset_time := 900000005 |})
    by (vm_compute; reflexivity).
  rewrite Hw' in Hw. injection Hw as <-.
  rewrite Hh. vm_compute. reflexivity.
Defined.



End LimiterMore.

(** * Further properties of the handlers *)

Module GatewayMore.

Import Limiter Gateway Notions PyFacts GatewayFacts SanitizeFacts.
Local Open Scope Z_scope.


(** The cases of a status table: each side of each equivalence, by the
    facts at hand. *)
Ltac status_cases :=
  repeat split; intros;
  repeat match goal with
         | H : _ ∧ _ |- _ => destruct H
         | H : _ ∨ _ |- _ => destruct H
         end;
  try done; try tauto; try congruence; try (by left); try (by right).

(** A chat reply, read back: the request went through the completion
    call, the [INSERT] did not raise, and the reply and the row are made
    of the same values. *)
Lemma chat_reply_shape lower to_float cfg w st uid body resp st' d :
  chat lower to_float cfg w st uid body = (resp, st') →
  payload resp = ChatReply d →
  ∃ data p,
    ChatSchema_load to_float body = Some data ∧
    chat_prepare lower st uid data (clock_check w) = Ready p ∧
    status resp = 200 ∧ success resp = true ∧
    d_response d = (chat_complete cfg w p data).1 ∧
    d_is_emergency d = p_is_emergency p ∧
    st' =
      {| limiter := p_limiter p;
         db := {| users := users (db st);
                  ai_chat_messages :=
                    ai_chat_messages (db st)
                      ++ [ {| r_id := d_message_id d; r_user_id := uid;
                              r_message := p_sanitized p;
                              r_response := d_response d; r_model := d_model d;
                              r_tokens_used := d_tokens_used d; r_is_user := true;
                              r_created_at := d_timestamp d |} ] |} |}.
Proof.
  intros Hchat Hd.
  destruct (chat_reply_inv _ _ _ _ _ _ _ _ _ _ Hchat Hd) as (data & p & Hload & Hp & _).
  exists data, p. split; [done|]. split; [done|].
  pose proof (chat_ready lower to_float cfg w st uid body data p Hload Hp) as H.
  cbv zeta in H. rewrite Hchat in H.
  destruct (_ || _) in H; injection H as -> ->; [discriminate Hd|].
  cbn [payload] in Hd. injection Hd as <-.
  cbn [status success d_response d_is_emergency d_message_id d_model d_tokens_used
       d_timestamp]. done.
Qed.

(** The row that [chat] appends when it answers with a chat reply. *)
Lemma chat_reply_row lower to_float cfg w st uid body resp st' d :
  chat lower to_float cfg w st uid body = (resp, st') →
  payload resp = ChatReply d →
  status resp = 200 ∧ success resp = true ∧
  users (db st') = users (db st) ∧
  ∃ message,
    getitem (u8 "message") body = Some (JStr message) ∧
    ai_chat_messages (db st') =
      ai_chat_messages (db st)
        ++ [ {| r_id := d_message_id d; r_user_id := uid;
                r_message := sanitize_message message;
                r_response := d_response d; r_model := d_model d;
                r_tokens_used := d_tokens_used d; r_is_user := true;
                r_created_at := d_timestamp d |} ].
Proof.
  intros Hchat Hd.
  destruct (chat_reply_shape _ _ _ _ _ _ _ _ _ _ Hchat Hd)
    as (data & p & Hload & Hp & Hst & Hok & _ & _ & ->).
  apply chat_prepare_ready in Hp as (_ & _ & _ & Hs & _).
  split; [done|]. split; [done|]. split; [done|].
  exists (in_message data). split; [by apply (ChatSchema_load_message to_float)|].
  cbn [db ai_chat_messages]. by rewrite Hs.
Qed.


(** X8. A chat reply and the row saved with it say the same: [POST /chat]
    answers with a chat reply only with status 200, and then exactly one
    row is appended to the table, made of the caller's id, the sanitized
    message and the reply's own id, text, model, token count and
    timestamp; the [users] table is as before. *)
Theorem reply_is_what_is_stored lower to_float cfg w st uid body resp st' d :
  chat lower to_float cfg w st uid body = (resp, st') →
  payload resp = ChatReply d →
  status resp = 200 ∧ success resp = true ∧
  users (db st') = users (db st) ∧
  ∃ message,
    getitem (u8 "message") body = Some (JStr message) ∧
    ai_chat_messages (db st') =
      ai_chat_messages (db st)
        ++ [ {| r_id := d_message_id d; r_user_id := uid;
                r_message := sanitize_message message;
                r_response := d_response d; r_model := d_model d;
                r_tokens_used := d_tokens_used d; r_is_user := true;
                r_created_at := d_timestamp d |} ].
Proof. apply chat_reply_row. Qed.

Lemma only_keys_assoc names fields k v :
  only_keys names fields = true → assoc k fields = Some v → k ∈ names.
Proof.
  unfold only_keys. induction fields as [|[k' v'] rest IH]; [done|].
  cbn [forallb assoc fst]. rewrite andb_true_iff, bool_decide_eq_true.
  intros [Hk Hrest]. case_bool_decide as E; [by subst|by apply IH].
Qed.

(** The temperature of a body that [ChatSchema] accepts. *)
Lemma ChatSchema_load_temperature to_float body data raw :
  ChatSchema_load to_float body = Some data →
  getitem (u8 "temperature") body = Some raw →
  Float_field to_float raw = Some (in_temperature data).
Proof.
  unfold ChatSchema_load. destruct body as [| | | | | |fields]; try done.
  cbn [getitem]. intros H Hraw. rewrite Hraw in H. cbn [from_option] in H.
  destruct (only_keys _ fields); [|done].
  destruct (assoc (u8 "message") fields) as [m|]; [|done].
  cbn [mbind option_bind] in H.
  destruct (String_field m) as [message|]; [|done]. cbn [mbind option_bind] in H.
  destruct (from_option String_field _ _) as [model|]; [|done].
  cbn [mbind option_bind] in H.
  destruct (Float_field to_float raw) as [t|]; [|done]. cbn [mbind option_bind] in H.
  destruct (from_option Boolean_field _ _) as [stream|]; [|done].
  cbn [mbind option_bind] in H.
  destruct (_ && _) in H; [|done]. by injection H as <-.
Qed.

(** X9. [ChatSchema] refuses, among others, a body that is not an object,
    has a key that is no field of the schema, has no message or a message
    that is [null], not a string, empty or longer than 5000 characters,
    or has a temperature that is [null] or a number outside 0.1 to 2.0.
    Whatever makes the schema refuse a body, [POST /chat] answers it with
    the server error 500 of [error_handler], not with 400, and neither
    the limiter nor the database is touched. *)
Theorem invalid_chat_request_is_server_error lower to_float cfg w st uid body :
  (invalid_chat_request body → ChatSchema_load to_float body = None) ∧
  (ChatSchema_load to_float body = None →
   chat lower to_float cfg w st uid body = (server_error, st) ∧
   status server_error = 500).
Proof.
  split.
  - intros Hbad.
    destruct (ChatSchema_load to_float body) as [data|] eqn:Hload; [exfalso|done].
    pose proof (ChatSchema_load_temperature to_float body data) as Htemp.
    specialize (fun raw => Htemp raw Hload).
    apply ChatSchema_load_Some in Hload
      as (fields & -> & Hkeys & Hm & Hlen & Hlo & Hhi & _).
    unfold invalid_chat_request in Hbad. cbn [getitem] in Hbad, Htemp.
    destruct Hbad as [H|[(k & v & Hk & Hout)|[H|[(v & Hv & Hs)|[(m & Hv & Hl)|
                      [H|[(n & Hn & Hr)|(q & Hq & Hr)]]]]]]].
    + by apply (H fields).
    + apply Hout. apply (only_keys_assoc _ _ _ _ Hkeys Hk).
    + congruence.
    + rewrite Hm in Hv. injection Hv as <-. by apply (Hs (in_message data)).
    + rewrite Hm in Hv. injection Hv as <-. lia.
    + specialize (Htemp _ H). discriminate Htemp.
    + specialize (Htemp _ Hn). cbn [Float_field] in Htemp. injection Htemp as Ht.
      rewrite <- Ht in Hlo, Hhi. apply Hr.
      unfold Qle in Hlo, Hhi. cbn in Hlo, Hhi. lia.
    + specialize (Htemp _ Hq). cbn [Float_field] in Htemp. injection Htemp as Ht.
      rewrite <- Ht in Hlo, Hhi. tauto.
  - intros Hbad. unfold chat. by rewrite Hbad.
Qed.

Lemma contains_prefix p rest : contains p (p ++ rest) = true.
Proof. apply contains_spec. by exists [], rest. Qed.

Lemma note_has_marker ai_response :
  contains (u8 "🚨") (with_emergency_note ai_response) = true.
Proof.
  unfold with_emergency_note.
  match goal with |- contains _ (?P ++ _) = _ => set (prefix := P) end.
  assert (Hp : prefix = u8 "🚨" ++ tail prefix) by (vm_compute; reflexivity).
  rewrite Hp, <- app_assoc. apply contains_prefix.
Qed.

Lemma emergency_fallback_has_marker :
  contains (u8 "🚨") emergency_fallback = true.
Proof. vm_compute. reflexivity. Qed.

(** X10. An emergency never goes unmarked: whenever a chat reply has
    [is_emergency] set, its text contains the siren sign or the word for
    urgent, whether it comes from the provider as it is, from the provider
    with the note put around it, or from the fallback. *)
Theorem emergency_reply_is_marked lower to_float cfg w st uid body resp st' d :
  chat lower to_float cfg w st uid body = (resp, st') →
  payload resp = ChatReply d →
  d_is_emergency d = true →
  contains (u8 "🚨") (d_response d) = true ∨
  contains (u8 "طارئ") (d_response d) = true.
Proof.
  intros Hchat Hd He.
  destruct (chat_reply_shape _ _ _ _ _ _ _ _ _ _ Hchat Hd)
    as (data & p & _ & _ & _ & _ & -> & Hflag & _).
  rewrite Hflag in He. unfold chat_complete.
  destruct (call_gemini_api _ _ _ _ _) as [e|result]; cbn [fst]; rewrite He.
  - left. apply emergency_fallback_has_marker.
  - cbn [andb].
    destruct (contains (u8 "🚨") (response result)) eqn:E1; cbn [negb andb];
      [by left|].
    destruct (contains (u8 "طارئ") (response result)) eqn:E2; cbn [negb];
      [by right|].
    left. apply note_has_marker.
Qed.

(** X11. The history handed to the completion call is the caller's own:
    each of its messages is the question or the answer of a stored row
    whose [user_id] is the caller's. *)
Theorem history_is_the_callers_own lower st uid data now p :
  chat_prepare lower st uid data now = Ready p →
  ∀ m, m ∈ history (p_messages p) →
    ∃ row, row ∈ ai_chat_messages (db st) ∧ r_user_id row = uid ∧
           ((role_of m = User ∧ content m = r_message row) ∨
            (role_of m = Assistant ∧ content m = r_response row)).
Proof.
  intros Hp m Hm.
  apply chat_messages_shape in Hp as (profile & _ & _ & Hh & _).
  rewrite Hh in Hm. unfold build_context in Hm.
  apply list_elem_of_In, in_flat_map in Hm as (row & Hrow & Hin).
  apply list_elem_of_In in Hrow. rewrite elem_of_reverse in Hrow.
  apply select_recent_most_recent in Hrow as (Ht & Hu & _).
  exists row. split; [done|]. split; [done|].
  destruct Hin as [<-|[<-|[]]]; [by left|by right].
Qed.

(** The newest row of a user heads the selection. *)
Lemma select_recent_newest d uid row :
  row ∈ ai_chat_messages d →
  r_user_id row = uid →
  (∀ r, r ∈ ai_chat_messages d → r_user_id r = uid →
        r = row ∨ r_created_at r < r_created_at row) →
  ∃ rest, select_recent d uid = row :: rest.
Proof.
  intros Hin Hu Hnew. unfold select_recent.
  set (mine := filter (fun r => r_user_id r = uid) (ai_chat_messages d)).
  assert (Hperm : merge_sort newer_first mine ≡ₚ mine) by apply merge_sort_Permutation.
  assert (Hsorted : StronglySorted newer_first (merge_sort newer_first mine)).
  { apply StronglySorted_merge_sort; apply _. }
  assert (Hrow : row ∈ merge_sort newer_first mine).
  { rewrite Hperm. by apply list_elem_of_filter. }
  destruct (merge_sort newer_first mine) as [|h tl]; [by apply elem_of_nil in Hrow|].
  exists (take 5 tl). cbn [take]. f_equal.
  apply elem_of_cons in Hrow as [->|Hrow]; [done|].
  apply StronglySorted_inv in Hsorted as [_ Hall].
  rewrite Forall_forall in Hall. specialize (Hall row Hrow).
  assert (Hh : h ∈ mine) by (rewrite <- Hperm; left).
  apply list_elem_of_filter in Hh as [Hhu Hh].
  destruct (Hnew h Hh Hhu) as [|Hlt]; [done|].
  unfold newer_first in Hall. lia.
Qed.

(** X12. What one chat saves the next one reads back: when the row saved
    by a chat is newer than the caller's earlier rows, the history of the
    caller's next chat ends with that exchange, the sanitized question
    followed by the answer that was returned. *)
Theorem saved_exchange_ends_next_history
    lower to_float cfg w st uid body resp st' d data' now' p :
  chat lower to_float cfg w st uid body = (resp, st') →
  payload resp = ChatReply d →
  (∀ r, r ∈ ai_chat_messages (db st) → r_user_id r = uid →
        r_created_at r < d_timestamp d) →
  chat_prepare lower st' uid data' now' = Ready p →
  ∃ message earlier,
    getitem (u8 "message") body = Some (JStr message) ∧
    history (p_messages p) =
      earlier ++ [ {| role_of := User; content := sanitize_message message |};
                   {| role_of := Assistant; content := d_response d |} ].
Proof.
  intros Hchat Hd Hnew Hp.
  destruct (chat_reply_row _ _ _ _ _ _ _ _ _ _ Hchat Hd)
    as (_ & _ & _ & message & Hm & Htable).
  exists message.
  apply chat_messages_shape in Hp as (profile & _ & _ & Hh & _).
  set (row := {| r_id := d_message_id d; r_user_id := uid;
                 r_message := sanitize_message message;
                 r_response := d_response d; r_model := d_model d;
                 r_tokens_used := d_tokens_used d; r_is_user := true;
                 r_created_at := d_timestamp d |}) in *.
  destruct (select_recent_newest (db st') uid row) as (rest & Hsel).
  - rewrite Htable. apply elem_of_app. right. by left.
  - done.
  - intros r Hr Hu. rewrite Htable in Hr.
    apply elem_of_app in Hr as [Hr|Hr]; [right; by apply Hnew|].
    apply list_elem_of_singleton in Hr. by left.
  - rewrite Hh, Hsel. unfold build_context. rewrite reverse_cons, flat_map_app.
    eexists. split; [done|]. reflexivity.
Qed.

(** ** [clear_history] *)

Lemma clear_history_confirmed to_int st uid body now older :
  ClearHistorySchema_load to_int body
    = Some {| in_confirm := true; in_older_than_days := older |} →
  ∃ message,
    clear_history to_int st uid body now =
      ({| status := 200; success := true;
          payload := Cleared message
            (Z.of_nat (length (filter (doomed uid older now)
                                      (ai_chat_messages (db st)))));
          headers := [] |},
       {| limiter := limiter st;
          db := {| users := users (db st);
                   ai_chat_messages :=
                     filter (fun r => ¬ doomed uid older now r)
                            (ai_chat_messages (db st)) |} |}).
Proof.
  intros Hload. unfold clear_history. rewrite Hload.
  cbn [in_confirm in_older_than_days negb]. eauto.
Qed.

(** X13. A clear request that the schema reads as confirmed and without
    [older_than_days] deletes all rows of the caller and no other row, and
    reports how many it deleted; the [users] table and the limiter are as
    before. *)
Theorem confirmed_clear_all_deletes_own_rows to_int st uid body now :
  ClearHistorySchema_load to_int body
    = Some {| in_confirm := true; in_older_than_days := None |} →
  let table := ai_chat_messages (db st) in
  let resp := (clear_history to_int st uid body now).1 in
  let st' := (clear_history to_int st uid body now).2 in
  status resp = 200 ∧
  (∃ message,
     payload resp =
       Cleared message (Z.of_nat (length (filter (fun r => r_user_id r = uid) table)))) ∧
  ai_chat_messages (db st') = filter (fun r => r_user_id r ≠ uid) table ∧
  (∀ r, r ∈ ai_chat_messages (db st') → r_user_id r ≠ uid) ∧
  (∀ r, r ∈ table → r_user_id r ≠ uid → r ∈ ai_chat_messages (db st')) ∧
  users (db st') = users (db st) ∧ limiter st' = limiter st.
Proof.
  intros Hload table resp st'. subst resp st'.
  destruct (clear_history_confirmed to_int st uid body now None Hload) as (message & ->).
  cbn [fst snd status payload db ai_chat_messages users limiter]. fold table.
  assert (H1 : ∀ r, doomed uid None now r ↔ r_user_id r = uid).
  { intros r. unfold doomed. cbn [get_int]. tauto. }
  rewrite (list_filter_iff _ (fun r => r_user_id r = uid)) by done.
  rewrite (list_filter_iff (fun r => ¬ doomed uid None now r)
                           (fun r => r_user_id r ≠ uid))
    by (intros r; by rewrite H1).
  split; [done|]. split; [eauto|]. split; [done|]. split; [|split; [|done]].
  - intros r Hr. by apply list_elem_of_filter in Hr as [? _].
  - intros r Hr Hu. by apply list_elem_of_filter.
Qed.

Lemma filter_not_twice {A} (P : A → Prop) `{∀ x, Decision (P x)} (l : list A) :
  filter P (filter (fun x => ¬ P x) l) = [] ∧
  filter (fun x => ¬ P x) (filter (fun x => ¬ P x) l) = filter (fun x => ¬ P x) l.
Proof.
  split.
  - apply filter_none. intros x Hx. by apply list_elem_of_filter in Hx as [? _].
  - apply filter_all. intros x Hx. by apply list_elem_of_filter in Hx as [? _].
Qed.

(** X14. Clearing is idempotent: the same request repeated at the same
    instant leaves the state the first one produced, and, when the first
    one deleted, the second one reports 0 deleted rows. *)
Theorem clear_history_twice to_int st uid body now :
  let first := clear_history to_int st uid body now in
  let second := clear_history to_int first.2 uid body now in
  second.2 = first.2 ∧
  status second.1 = status first.1 ∧
  (status first.1 = 200 → ∃ message, payload second.1 = Cleared message 0).
Proof.
  intros first second. subst first second. unfold clear_history.
  destruct (ClearHistorySchema_load to_int body) as [data|]; [|by repeat split].
  destruct (in_confirm data); cbn [negb]; [|by repeat split].
  cbn [fst snd db ai_chat_messages users limiter status payload].
  destruct (filter_not_twice (doomed uid (in_older_than_days data) now)
              (ai_chat_messages (db st))) as [-> ->].
  split; [done|]. split; [done|]. intros _. eauto.
Qed.

(** X15. When [DELETE /history] refuses.  It answers 500 exactly when
    the schema refuses the body, as it does when [older_than_days] is an
    integer outside 1 to 365 or [confirm] is [null], whatever the other
    field says; 400 exactly when the schema accepts the body and [confirm]
    is absent or read as false; and 200 in the remaining case only, when
    the schema accepts the body and reads [confirm] as true.  A refusal
    changes nothing. *)
Theorem clear_history_refusals to_int st uid body now :
  let resp := (clear_history to_int st uid body now).1 in
  let st' := (clear_history to_int st uid body now).2 in
  let loaded := ClearHistorySchema_load to_int body in
  (status resp = 500 ↔ loaded = None) ∧
  (status resp = 400 ↔ loaded ≠ None ∧ ¬ confirmed body) ∧
  (status resp = 200 ↔ loaded ≠ None ∧ confirmed body) ∧
  (∀ d, getitem (u8 "older_than_days") body = Some (JInt d) →
        ¬ 1 ≤ d ≤ 365 → status resp = 500) ∧
  (getitem (u8 "confirm") body = Some JNull → status resp = 500) ∧
  (getitem (u8 "confirm") body = None → status resp ≠ 200) ∧
  (status resp ≠ 200 → st' = st).
Proof.
  intros resp st' loaded. subst resp st' loaded.
  assert (Hcases :
    (status (clear_history to_int st uid body now).1 = 500 ↔
     ClearHistorySchema_load to_int body = None) ∧
    (status (clear_history to_int st uid body now).1 = 400 ↔
     ClearHistorySchema_load to_int body ≠ None ∧ ¬ confirmed body) ∧
    (status (clear_history to_int st uid body now).1 = 200 ↔
     ClearHistorySchema_load to_int body ≠ None ∧ confirmed body) ∧
    (status (clear_history to_int st uid body now).1 ≠ 200 →
     (clear_history to_int st uid body now).2 = st)).
  { unfold clear_history.
    destruct (ClearHistorySchema_load to_int body) as [data|] eqn:Hload.
    - destruct (ClearHistorySchema_load_Some to_int body _ Hload) as (Hc & _).
      destruct (in_confirm data); cbn [negb fst snd status failure].
      + assert (confirmed body) by (by apply Hc). status_cases.
      + assert (¬ confirmed body) by (intros H; by apply Hc in H). status_cases.
    - cbn [fst snd status failure]. status_cases. }
  destruct Hcases as (H500 & H400 & H200 & Hsame).
  split; [done|]. split; [done|]. split; [done|]. split; [|split; [|split; [|done]]].
  - intros d Hd Hout. apply H500.
    destruct (ClearHistorySchema_load to_int body) as [data|] eqn:Hload; [exfalso|done].
    destruct (ClearHistorySchema_load_Some to_int body _ Hload) as (_ & _ & Hnone & Hsome).
    destruct (in_older_than_days data) as [d'|] eqn:Ed.
    + destruct (Hsome d' eq_refl) as (Hrange & raw & Hraw & Hint).
      rewrite Hd in Hraw. injection Hraw as <-. cbn [Integer_field] in Hint.
      injection Hint as ->. done.
    + revert Hload Ed. unfold ClearHistorySchema_load.
      destruct body as [| | | | | |fields]; try done. cbn [getitem] in Hd.
      rewrite Hd. destruct (only_keys _ fields); [|done].
      destruct (from_option Boolean_field _ _) as [c|]; [|done].
      cbn [mbind option_bind Integer_field].
      destruct (Z.leb_spec 1 d); cbn [andb]; [|done].
      destruct (Z.leb_spec d 365); [lia|done].
  - intros Hnull. apply H500. unfold ClearHistorySchema_load.
    destruct body as [| | | | | |fields]; try done. cbn [getitem] in Hnull.
    rewrite Hnull. by destruct (only_keys _ fields).
  - intros Habsent H. apply H200 in H as [_ (v & Hv & _)]. congruence.
Qed.

(** Only a request that the schema reads as confirmed is answered 200. *)
Lemma clear_history_200 to_int st uid body now :
  status (clear_history to_int st uid body now).1 = 200 →
  ∃ older,
    ClearHistorySchema_load to_int body
      = Some {| in_confirm := true; in_older_than_days := older |}.
Proof.
  unfold clear_history.
  destruct (ClearHistorySchema_load to_int body) as [[confirm older]|];
    [|cbn [fst status failure]; intros H; discriminate H].
  cbn [in_confirm]. destruct confirm; cbn [negb];
    [|cbn [fst status failure]; intros H; discriminate H].
  eauto.
Qed.

(** X16. After a successful full clear the caller's next chat carries no
    history: the list handed to the completion call is the system message
    and the new message only. *)
Theorem cleared_history_is_forgotten lower to_int st uid cbody now data now' p :
  status (clear_history to_int st uid cbody now).1 = 200 →
  getitem (u8 "older_than_days") cbody = None →
  chat_prepare lower (clear_history to_int st uid cbody now).2 uid data now' = Ready p →
  history (p_messages p) = [] ∧
  List.map role_of (p_messages p) = [System; User].
Proof.
  intros Hst Hd Hp.
  apply clear_history_200 in Hst as (older & Hload).
  destruct (ClearHistorySchema_load_Some to_int cbody _ Hload) as (_ & _ & Hnone & _).
  cbn [in_older_than_days] in Hnone. rewrite (Hnone Hd) in Hload.
  destruct (clear_history_confirmed to_int st uid cbody now None Hload) as (message & Heq).
  apply chat_messages_shape in Hp as (profile & _ & Hm & Hh & _).
  assert (Hsel : select_recent (db (clear_history to_int st uid cbody now).2) uid = []).
  { rewrite Heq. unfold select_recent. cbn [snd db ai_chat_messages].
    rewrite filter_none; [done|].
    intros r Hr Hu. apply list_elem_of_filter in Hr as [Hn _].
    apply Hn. unfold doomed. cbn [get_int]. by split. }
  rewrite Hsel in Hh. split; [done|]. rewrite Hm, Hh. reflexivity.
Qed.

(** ** The request sent to the provider *)

Lemma format_contents_plain messages : ∀ acc,
  Forall (fun m => role_of m ≠ System) messages →
  fold_left add_content messages acc = acc ++ List.map to_content messages.
Proof.
  induction messages as [|m ms IH]; intros acc Hall; simpl.
  { by rewrite app_nil_r. }
  apply Forall_cons in Hall as [Hm Hms]. rewrite IH by done.
  unfold add_content, to_content. destruct m as [[] c]; simpl in *;
    [done| |]; by rewrite <- app_assoc.
Qed.

(** X17. The contents sent to the provider for a chat: the system prompt
    comes first and has no role, the history messages follow in order,
    stored questions as [user] and stored answers as [model], and the new
    message comes last as [user]. *)
Theorem contents_of_chat_messages lower st uid data now p :
  chat_prepare lower st uid data now = Ready p →
  ∃ profile,
    select_user (db st) uid = Some profile ∧
    format_contents (p_messages p) =
      {| g_role := None; g_text := create_system_prompt (Some profile) |}
        :: List.map to_content (history (p_messages p))
        ++ [ {| g_role := Some GUser;
                g_text := sanitize_message (in_message data) |} ].
Proof.
  intros Hp.
  apply chat_messages_shape in Hp as (profile & Hu & Hm & _ & Hroles & _).
  exists profile. split; [done|].
  rewrite Hm at 1. unfold format_contents. cbn [fold_left add_content role_of content].
  rewrite format_contents_plain.
  - by rewrite map_app.
  - apply Forall_app. split; [done|]. by repeat constructor.
Qed.

(** X18. The system prompt always begins with the fixed instructions, and
    when the profile has a gender it ends with the gender line, which
    says male for the value [male] only: every other value, the Arabic
    word for male that registration accepts included, is put down as
    female. *)
Theorem system_prompt_gender_line profile :
  (∃ extra, create_system_prompt (Some profile) = base_prompt ++ extra) ∧
  (∀ g, get_text (u_gender profile) = Some g →
     ∃ pre,
       create_system_prompt (Some profile) =
         pre ++ u8 "
النوع: " ++ (if bool_decide (g = u8 "male") then u8 "ذكر" else u8 "أنثى")).
Proof.
  unfold create_system_prompt. cbv zeta. split.
  - destruct (get_text (u_diseases profile)), (get_text (u_allergies profile)),
      (get_text (u_medications profile)), (get_int (u_age profile)),
      (get_text (u_gender profile));
      rewrite <- ?app_assoc;
      lazymatch goal with
      | |- ∃ extra, base_prompt = base_prompt ++ extra =>
        exists []; symmetry; apply app_nil_r
      | |- _ => eexists; reflexivity
      end.
  - intros g ->. eexists. reflexivity.
Qed.

(** ** The context query *)

(** X19. The rows read for the context are the caller's most recent ones:
    all of the caller's rows when there are at most six, six of them
    otherwise, every one a row of the caller, none older than a row of
    the caller that is left out, and handed over oldest first. *)
Theorem context_rows_are_the_most_recent d uid :
  let mine := filter (fun r => r_user_id r = uid) (ai_chat_messages d) in
  length (select_recent d uid) = (length mine `min` 6)%nat ∧
  (∀ r, r ∈ select_recent d uid →
     r ∈ mine ∧
     ∀ r', r' ∈ mine → r' ∉ select_recent d uid →
           r_created_at r' ≤ r_created_at r) ∧
  Sorted (fun a b => r_created_at a ≤ r_created_at b)
         (reverse (select_recent d uid)).
Proof.
  intros mine. split; [|split].
  - unfold select_recent. fold mine.
    rewrite length_take, (Permutation_length (merge_sort_Permutation _ mine)). lia.
  - intros r Hr. destruct (select_recent_most_recent d uid r Hr) as (Ht & Hu & Hnew).
    split; [by apply list_elem_of_filter|].
    intros r' Hr' Hout. apply list_elem_of_filter in Hr' as [Hu' Hr'].
    by apply Hnew.
  - apply select_recent_chronological.
Qed.

(** X20. The context does not depend on the order in which the table
    holds its rows: two tables with the same rows, in which the caller's
    rows have distinct dates, give the same context. *)
Theorem context_ignores_storage_order d1 d2 uid :
  ai_chat_messages d1 ≡ₚ ai_chat_messages d2 →
  (∀ r1 r2, r1 ∈ ai_chat_messages d1 → r2 ∈ ai_chat_messages d1 →
            r_user_id r1 = uid → r_user_id r2 = uid →
            r_created_at r1 = r_created_at r2 → r1 = r2) →
  build_context (select_recent d1 uid) = build_context (select_recent d2 uid).
Proof. intros Hperm Hd. by rewrite (select_recent_storage_order d1 d2 uid). Qed.

(** X21. The list handed to the completion call has one system message,
    in first place, made from the caller's profile; then the history, two
    messages for each row read, at most twelve; then the new message,
    sanitized, in last place. *)
Theorem chat_messages_layout lower st uid data now p :
  chat_prepare lower st uid data now = Ready p →
  ∃ profile,
    select_user (db st) uid = Some profile ∧
    p_messages p =
      {| role_of := System; content := create_system_prompt (Some profile) |}
        :: build_context (select_recent (db st) uid)
        ++ [ {| role_of := User; content := sanitize_message (in_message data) |} ] ∧
    Forall (fun m => role_of m ≠ System)
           (build_context (select_recent (db st) uid)) ∧
    length (p_messages p) = (2 * length (select_recent (db st) uid) + 2)%nat ∧
    (length (p_messages p) ≤ 14)%nat.
Proof.
  intros Hp.
  apply chat_messages_shape in Hp as (profile & Hu & Hm & Hh & Hroles & Hlen & Hle).
  exists profile. split; [done|]. rewrite Hh in *. split; [done|]. split; [done|].
  rewrite Hm. cbn [length]. rewrite length_app. cbn [length]. lia.
Qed.

(** ** The completion call *)

(** X22. How [call_gemini_api] ends.  Without an API key it raises
    before any request, whatever the transport would answer.  With a key
    it raises exactly when the request times out or fails, is answered
    with a status other than 200, or is answered 200 with a body that is
    not JSON or holds no candidate text; otherwise it returns that
    candidate text. *)
Theorem completion_call_outcomes cfg post messages model temp :
  let model' := match model with [] => GEMINI_MODEL cfg | _ :: _ => model end in
  let outcome :=
    post (api_url model' (GEMINI_API_KEY cfg))
         {| contents := format_contents messages; temperature := temp;
            maxOutputTokens := AI_MAX_TOKENS cfg |} in
  (GEMINI_API_KEY cfg = [] →
   call_gemini_api cfg post messages model temp = inl NoApiKey) ∧
  (GEMINI_API_KEY cfg ≠ [] →
   ((∃ e, call_gemini_api cfg post messages model temp = inl e) ↔
    outcome = HttpTimeout ∨ outcome = HttpFailure ∨
    ∃ code body, outcome = HttpResponse code body ∧
      (code ≠ 200 ∨ body = None ∨ ∃ j, body = Some j ∧ candidate_text j = None)) ∧
   (∀ r, call_gemini_api cfg post messages model temp = inr r →
         ∃ j, outcome = HttpResponse 200 (Some j) ∧
              candidate_text j = Some (response r))).
Proof.
  intros model' outcome. split.
  - intros Hk. unfold call_gemini_api. by rewrite Hk.
  - intros Hk. split; [by apply call_gemini_api_raises|].
    intros r. unfold call_gemini_api.
    destruct (GEMINI_API_KEY cfg) as [|k0 key] eqn:Ek; [done|].
    fold model'. fold outcome. destruct outcome as [| |code body]; try done.
    destruct (Z.eqb_spec code 200) as [->|]; cbn [negb]; [|done].
    destruct body as [j|]; [|done].
    destruct (candidate_text j) as [text|] eqn:Et; [|done].
    intros [= <-]. cbn [response]. eauto.
Qed.

(** ** The properties at work on the sample data *)

Import Samples MoreSamples.


Lemma reply_is_what_is_stored_witness :
  let run := chat ascii_lower ascii_float sample_config offline sample_state alice
                  (ask (u8 "hello")) in
  ∃ d, payload run.1 = ChatReply d ∧ status run.1 = 200.
Proof.
  intros run.
  destruct (payload run.1) as [| d |] eqn:Hd;
    [vm_compute in Hd; discriminate Hd | | vm_compute in Hd; discriminate Hd].
  exists d. split; [reflexivity|].
  exact (proj1 (reply_is_what_is_stored ascii_lower ascii_float sample_config
                  offline sample_state alice (ask (u8 "hello")) run.1 run.2 d
                  (surjective_pairing run) Hd)).
Defined.

Lemma invalid_chat_request_is_server_error_witness :
  let body := JDict [ (u8 "message", JStr (u8 "hello")); (u8 "top_p", JInt 1) ] in
  chat ascii_lower ascii_float sample_config offline sample_state alice body
    = (server_error, sample_state) ∧
  status server_error = 500.
Proof.
  intros body.
  pose proof (invalid_chat_request_is_server_error ascii_lower ascii_float
                sample_config offline sample_state alice body) as [Hrefused Hanswer].
  apply Hanswer, Hrefused.
  right. left. exists (u8 "top_p"), (JInt 1). split; [vm_compute; reflexivity|].
  intros Hin. apply list_elem_of_In in Hin. vm_compute in Hin.
  repeat destruct Hin as [Hin|Hin]; try discriminate Hin. exact Hin.
Defined.

Lemma emergency_reply_is_marked_witness :
  let run := chat ascii_lower ascii_float sample_config (answering (u8 "rest and drink water"))
                  sample_state alice (ask (u8 "لدي نزيف حاد")) in
  ∃ d, payload run.1 = ChatReply d ∧
       (contains (u8 "🚨") (d_response d) = true ∨
        contains (u8 "طارئ") (d_response d) = true).
Proof.
  intros run.
  destruct (payload run.1) as [| d |] eqn:Hd;
    [vm_compute in Hd; discriminate Hd | | vm_compute in Hd; discriminate Hd].
  assert (He : d_is_emergency d = true).
  { assert (H : match payload run.1 with
                | ChatReply d' => d_is_emergency d'
                | _ => false
                end = true) by (vm_compute; reflexivity).
    rewrite Hd in H. exact H. }
  exists d. split; [reflexivity|].
  exact (emergency_reply_is_marked ascii_lower ascii_float sample_config
           (answering (u8 "rest and drink water")) sample_state alice
           (ask (u8 "لدي نزيف حاد")) run.1 run.2 d (surjective_pairing run) Hd He).
Defined.

Lemma history_is_the_callers_own_witness :
  ∃ p row,
    chat_prepare ascii_lower sample_state alice hello_input (days 40) = Ready p ∧
    row ∈ ai_chat_messages (db sample_state) ∧ r_user_id row = alice ∧
    ((User = User ∧ u8 "q1" = r_message row) ∨
     (User = Assistant ∧ u8 "q1" = r_response row)).
Proof.
  assert (H : ∃ p,
            chat_prepare ascii_lower sample_state alice hello_input (days 40)
              = Ready p ∧
            {| role_of := User; content := u8 "q1" |} ∈ history (p_messages p)).
  { eexists. split; [vm_compute; reflexivity|].
    apply list_elem_of_In. vm_compute. left. reflexivity. }
  destruct H as (p & Hp & Hin).
  destruct (history_is_the_callers_own ascii_lower sample_state alice hello_input
              (days 40) p Hp _ Hin) as (row & Hrow & Hu & Hc).
  exists p, row. split; [exact Hp|]. split; [exact Hrow|]. split; [exact Hu|].
  exact Hc.
Defined.

Lemma saved_exchange_ends_next_history_witness :
  let run := chat ascii_lower ascii_float sample_config (answering (u8 "rest"))
                  sample_state alice (ask (u8 "hello")) in
  ∃ d p message earlier,
    payload run.1 = ChatReply d ∧
    chat_prepare ascii_lower run.2 alice hello_input (days 41) = Ready p ∧
    getitem (u8 "message") (ask (u8 "hello")) = Some (JStr message) ∧
    history (p_messages p) =
      earlier ++ [ {| role_of := User; content := sanitize_message message |};
                   {| role_of := Assistant; content := d_response d |} ].
Proof.
  intros run.
  destruct (payload run.1) as [| d |] eqn:Hd;
    [vm_compute in Hd; discriminate Hd | | vm_compute in Hd; discriminate Hd].
  assert (Ht : d_timestamp d = days 40 + 1).
  { assert (H : match payload run.1 with
                | ChatReply d' => d_timestamp d'
                | _ => 0
                end = days 40 + 1) by (vm_compute; reflexivity).
    rewrite Hd in H. exact H. }
  destruct (chat_prepare ascii_lower run.2 alice hello_input (days 41))
    as [r s | p] eqn:Hp; [vm_compute in Hp; discriminate Hp|].
  assert (Hnew : ∀ r, r ∈ ai_chat_messages (db sample_state) →
                      r_user_id r = alice → r_created_at r < d_timestamp d).
  { intros r Hr _. rewrite Ht.
    repeat (apply elem_of_cons in Hr as [-> | Hr]; [vm_compute; reflexivity|]).
    apply elem_of_nil in Hr. destruct Hr. }
  destruct (saved_exchange_ends_next_history ascii_lower ascii_float sample_config
              (answering (u8 "rest")) sample_state alice (ask (u8 "hello"))
              run.1 run.2 d hello_input (days 41) p
              (surjective_pairing run) Hd Hnew Hp)
    as (message & earlier & Hm & Hh).
  exists d, p, message, earlier. split; [reflexivity|]. split; [reflexivity|].
  split; [exact Hm | exact Hh].
Defined.

Lemma confirmed_clear_all_deletes_own_rows_witness :
  let table := ai_chat_messages (db sample_state) in
  let resp := (clear_history ascii_int sample_state alice clear_all (days 40)).1 in
  let st' := (clear_history ascii_int sample_state alice clear_all (days 40)).2 in
  status resp = 200 ∧
  (∃ message,
     payload resp =
       Cleared message (Z.of_nat (length (filter (fun r => r_user_id r = alice) table)))) ∧
  ai_chat_messages (db st') = filter (fun r => r_user_id r ≠ alice) table ∧
  (∀ r, r ∈ ai_chat_messages (db st') → r_user_id r ≠ alice) ∧
  (∀ r, r ∈ table → r_user_id r ≠ alice → r ∈ ai_chat_messages (db st')) ∧
  users (db st') = users (db sample_state) ∧ limiter st' = limiter sample_state.
Proof.
  apply (confirmed_clear_all_deletes_own_rows ascii_int sample_state alice clear_all
           (days 40)).
  vm_compute. reflexivity.
Defined.

Lemma clear_history_twice_witness :
  ∃ message,
    payload (clear_history ascii_int (clear_history ascii_int sample_state alice clear_all (days 40)).2
                           alice clear_all (days 40)).1
      = Cleared message 0.
Proof.
  pose proof (clear_history_twice ascii_int sample_state alice clear_all (days 40)) as H.
  cbv zeta in H. apply (proj2 (proj2 H)). vm_compute. reflexivity.
Defined.

Lemma clear_history_refusals_witness :
  status (clear_history ascii_int sample_state alice (clear_older (JBool true) 400)
                        (days 40)).1 = 500.
Proof.
  pose proof (clear_history_refusals ascii_int sample_state alice
                (clear_older (JBool true) 400) (days 40)) as H.
  cbv zeta in H. destruct H as (_ & _ & _ & H & _). apply (H 400).
  - vm_compute. reflexivity.
  - lia.
Defined.

Lemma cleared_history_is_forgotten_witness :
  ∃ p,
    chat_prepare ascii_lower (clear_history ascii_int sample_state alice clear_all (days 40)).2
                 alice hello_input (days 40) = Ready p ∧
    history (p_messages p) = [] ∧
    List.map role_of (p_messages p) = [System; User].
Proof.
  destruct (chat_prepare ascii_lower
              (clear_history ascii_int sample_state alice clear_all (days 40)).2
              alice hello_input (days 40)) as [r s | p] eqn:Hp;
    [vm_compute in Hp; discriminate Hp|].
  exists p. split; [reflexivity|].
  apply (cleared_history_is_forgotten ascii_lower ascii_int sample_state alice
           clear_all (days 40) hello_input (days 40) p).
  - vm_compute. reflexivity.
  - vm_compute. reflexivity.
  - exact Hp.
Defined.

Lemma contents_of_chat_messages_witness :
  ∃ p profile,
    chat_prepare ascii_lower sample_state alice hello_input (days 40) = Ready p ∧
    select_user (db sample_state) alice = Some profile ∧
    format_contents (p_messages p) =
      {| g_role := None; g_text := create_system_prompt (Some profile) |}
        :: List.map to_content (history (p_messages p))
        ++ [ {| g_role := Some GUser;
                g_text := sanitize_message (in_message hello_input) |} ].
Proof.
  destruct (chat_prepare ascii_lower sample_state alice hello_input (days 40))
    as [r s | p] eqn:Hp; [vm_compute in Hp; discriminate Hp|].
  destruct (contents_of_chat_messages ascii_lower sample_state alice hello_input
              (days 40) p Hp) as (profile & Hu & Hc).
  exists p, profile. split; [reflexivity|]. split; [exact Hu | exact Hc].
Defined.

Lemma system_prompt_gender_line_witness :
  ∃ pre,
    create_system_prompt (Some omar_row) =
      pre ++ u8 "
النوع: " ++ (if bool_decide (u8 "ذكر" = u8 "male") then u8 "ذكر" else u8 "أنثى").
Proof.
  apply (proj2 (system_prompt_gender_line omar_row) (u8 "ذكر")).
  vm_compute. reflexivity.
Defined.

Lemma context_rows_are_the_most_recent_witness :
  turn (u8 "m-6") alice (u8 "q6") (u8 "a6") 6
    ∈ filter (fun r => r_user_id r = alice) (ai_chat_messages (db sample_state)).
Proof.
  pose proof (context_rows_are_the_most_recent (db sample_state) alice) as H.
  cbv zeta in H.
  apply (proj1 (proj2 H) (turn (u8 "m-6") alice (u8 "q6") (u8 "a6") 6)).
  apply list_elem_of_In. vm_compute. left. reflexivity.
Defined.

Lemma context_ignores_storage_order_witness :
  build_context (select_recent (db sample_state) alice)
    = build_context (select_recent reversed_db alice).
Proof.
  apply (context_ignores_storage_order (db sample_state) reversed_db alice).
  - symmetry. apply reverse_Permutation.
  - intros r1 r2 H1 H2 Hu1 Hu2 Hd.
    repeat (apply elem_of_cons in H1 as [-> | H1]);
      try (apply elem_of_nil in H1; destruct H1);
      repeat (apply elem_of_cons in H2 as [-> | H2]);
      try (apply elem_of_nil in H2; destruct H2);
      first [ reflexivity
            | vm_compute in Hd; discriminate Hd
            | vm_compute in Hu1; discriminate Hu1
            | vm_compute in Hu2; discriminate Hu2 ].
Defined.

Lemma chat_messages_layout_witness :
  ∃ p,
    chat_prepare ascii_lower sample_state alice hello_input (days 40) = Ready p ∧
    (length (p_messages p) ≤ 14)%nat.
Proof.
  destruct (chat_prepare ascii_lower sample_state alice hello_input (days 40))
    as [r s | p] eqn:Hp; [vm_compute in Hp; discriminate Hp|].
  destruct (chat_messages_layout ascii_lower sample_state alice hello_input
              (days 40) p Hp) as (profile & _ & _ & _ & _ & Hle).
  exists p. split; [reflexivity | exact Hle].
Defined.

Lemma completion_call_outcomes_witness :
  ∃ e, call_gemini_api sample_config (http_post offline) one_question []
                       (7 # 10)%Q = inl e.
Proof.
  pose proof (completion_call_outcomes sample_config (http_post offline)
                one_question [] (7 # 10)%Q) as H.
  cbv zeta in H. destruct H as [_ H].
  assert (Hk : GEMINI_API_KEY sample_config ≠ [])
    by (vm_compute; intros E; discriminate E).
  apply (proj2 (proj1 (H Hk))). left. reflexivity.
Defined.

End GatewayMore.

(** * Properties of the feedback handler *)

Module FeedbackFacts.

Import Gateway Feedback.
Local Open Scope Z_scope.





(** ** The message id pattern *)

Lemma hex_run_spec n : ∀ s r,
  hex_run n s = Some r ↔
  ∃ h, s = h ++ r ∧ length h = n ∧ Forall (fun c => is_hex c = true) h.
Proof.
  induction n as [|n IH]; intros s r; simpl.
  - split.
    + intros [= ->]. exists []. by repeat split.
    + intros (h & -> & Hl & _). by destruct h.
  - destruct s as [|c s].
    + split; [done|]. intros (h & Hs & Hl & _). by destruct h.
    + destruct (is_hex c) eqn:Ec.
      * rewrite IH. split.
        -- intros (h & -> & Hl & Hh). exists (c :: h).
           split; [done|]. split; [by rewrite <- Hl|by constructor].
        -- intros (h & Hs & Hl & Hh). destruct h as [|c' h]; [done|].
           injection Hs as <- ->. injection Hl as Hl.
           apply Forall_cons in Hh as [_ Hh]. by exists h.
      * split; [done|]. intros (h & Hs & Hl & Hh). destruct h as [|c' h]; [done|].
        injection Hs as <- _. apply Forall_cons in Hh as [Hc _]. congruence.
Qed.

Lemma dash_spec s r : dash s = Some r ↔ s = 45%N :: r.
Proof.
  unfold dash. destruct s as [|c s]; [done|].
  destruct (N.eqb_spec c 45) as [->|Hc].
  - split; by intros [= ->].
  - split; [done|]. intros [= ? ?]. done.
Qed.

(** X24. The message id that [AIFeedbackSchema] lets through: five groups
    of 8, 4, 4, 4 and 12 characters out of [0-9a-f], upper-case letters
    excluded, with a hyphen between two groups, and nothing after them
    but, at most, one line feed, which the pattern's [$] lets through. *)
Theorem matches_uuid_shape s :
  matches_uuid s = true ↔
  ∃ g1 g2 g3 g4 g5 rest,
    s = g1 ++ [45%N] ++ g2 ++ [45%N] ++ g3 ++ [45%N] ++ g4 ++ [45%N] ++ g5 ++ rest ∧
    List.map length [g1; g2; g3; g4; g5] = [8; 4; 4; 4; 12]%nat ∧
    Forall (fun c => (48 ≤ c ≤ 57 ∨ 97 ≤ c ≤ 102)%N) (g1 ++ g2 ++ g3 ++ g4 ++ g5) ∧
    (rest = [] ∨ rest = [10%N]).
Proof.
  assert (Hhex : ∀ g, Forall (fun c => is_hex c = true) g ↔
                      Forall (fun c => (48 ≤ c ≤ 57 ∨ 97 ≤ c ≤ 102)%N) g).
  { intros g. apply Forall_proper; [|done]. intros c. unfold is_hex.
    rewrite orb_true_iff, !andb_true_iff, !N.leb_le. tauto. }
  unfold matches_uuid. split.
  - destruct (hex_run 8 s) as [s1|] eqn:E1; cbn [mbind option_bind]; [|done].
    destruct (dash s1) as [s2|] eqn:D1; cbn [mbind option_bind]; [|done].
    destruct (hex_run 4 s2) as [s3|] eqn:E2; cbn [mbind option_bind]; [|done].
    destruct (dash s3) as [s4|] eqn:D2; cbn [mbind option_bind]; [|done].
    destruct (hex_run 4 s4) as [s5|] eqn:E3; cbn [mbind option_bind]; [|done].
    destruct (dash s5) as [s6|] eqn:D3; cbn [mbind option_bind]; [|done].
    destruct (hex_run 4 s6) as [s7|] eqn:E4; cbn [mbind option_bind]; [|done].
    destruct (dash s7) as [s8|] eqn:D4; cbn [mbind option_bind]; [|done].
    destruct (hex_run 12 s8) as [rest|] eqn:E5; [|done].
    intros Hrest.
    apply hex_run_spec in E1 as (g1 & -> & L1 & H1).
    apply hex_run_spec in E2 as (g2 & -> & L2 & H2).
    apply hex_run_spec in E3 as (g3 & -> & L3 & H3).
    apply hex_run_spec in E4 as (g4 & -> & L4 & H4).
    apply hex_run_spec in E5 as (g5 & -> & L5 & H5).
    apply dash_spec in D1 as ->. apply dash_spec in D2 as ->.
    apply dash_spec in D3 as ->. apply dash_spec in D4 as ->.
    exists g1, g2, g3, g4, g5, rest. split; [done|].
    split; [cbn [List.map]; by rewrite L1, L2, L3, L4, L5|].
    split; [rewrite <- Hhex, !Forall_app; tauto|].
    destruct rest as [|c [|? ?]]; [by left| |done].
    apply N.eqb_eq in Hrest as ->. by right.
  - intros (g1 & g2 & g3 & g4 & g5 & rest & -> & HL & Hall & Hrest).
    cbn [List.map] in HL. injection HL as L1 L2 L3 L4 L5.
    rewrite <- Hhex, !Forall_app in Hall. destruct Hall as (H1 & H2 & H3 & H4 & H5).
    rewrite (proj2 (hex_run_spec 8 _ _)) by (by exists g1).
    cbn [mbind option_bind app dash]. rewrite N.eqb_refl. cbn [mbind option_bind].
    rewrite (proj2 (hex_run_spec 4 _ _)) by (by exists g2).
    cbn [mbind option_bind app dash]. rewrite N.eqb_refl. cbn [mbind option_bind].
    rewrite (proj2 (hex_run_spec 4 _ _)) by (by exists g3).
    cbn [mbind option_bind app dash]. rewrite N.eqb_refl. cbn [mbind option_bind].
    rewrite (proj2 (hex_run_spec 4 _ _)) by (by exists g4).
    cbn [mbind option_bind app dash]. rewrite N.eqb_refl. cbn [mbind option_bind].
    rewrite (proj2 (hex_run_spec 12 _ _)) by (by exists g5).
    cbn [mbind option_bind]. by destruct Hrest as [-> | ->].
Qed.

End FeedbackFacts.
